(** * ReportPage: the reanalysis poller and the background refresher

    A shallow embedding of [frontend/src/pages/ReportPage.jsx] (the version
    with the [isMounted] / [successTimeoutRef] refs).  The component is a
    set of callbacks run by a single-threaded event loop: every [await]
    parks the rest of an async function as a continuation (a pending
    request or a pending timer), and the environment later delivers one
    event at a time.  The model keeps the React state, the two refs, the
    table of pending timers and the table of in-flight requests in one
    record, and runs each callback as a command that transforms this record
    and emits the calls it makes.  Continuations that are only chained by
    promise resolution run inside the step of the event that resolves them,
    as the microtask queue is drained before the next event is taken.

    The events are the user's click on the reanalyze button (when the
    rendered screen offers it), a change of the route parameter [:id] while
    the page stays mounted (the effect has [[id]] as its dependencies, so
    its cleanup and then its body run again), the unmount, the firing of a
    pending timer, and the fulfilment or rejection of an in-flight request.
    Timers fire in any order: delays are recorded in the emitted calls and
    not compared.

    The rest of the front end follows on the same pattern, each component
    in a module of its own: the first version of the page, HistoryPage,
    CheckReferencePage, RatingWidget, the route table of App.jsx and the
    interceptors of the API client. *)

From stdpp Require Import gmap strings list.

(** ** Data *)

(** [response.data.reference.status] *)
Inductive Status := queued | processing | completed | failed.

#[global] Instance Status_eq_dec : EqDecision Status.
Proof. solve_decision. Defined.

(** [response.data]: the reference (with its status) and the report. *)
Record Reference := { reference_id : nat; status : Status }.
Record Data := { reference : Reference; report : nat }.

#[global] Instance Reference_eq_dec : EqDecision Reference.
Proof. solve_decision. Defined.
#[global] Instance Data_eq_dec : EqDecision Data.
Proof. solve_decision. Defined.

(** The rest of an async function parked at an [await] of an API call. *)
Inductive Pending :=
| AwaitFetchReport
    (* fetchReport, at [await referenceAPI.getReference(id)] *)
| AwaitReanalyze (cid : nat)
    (* handleReanalyze, at [await referenceAPI.reanalyze(id)] *)
| AwaitPoll (cid : nat) (attempts : nat).
    (* pollForResults, at [await referenceAPI.getReference(id)] *)

(** The callback of a pending timer.  A closure is represented by the
    values it captured: the refresher captures the [data] and [id] of the
    render in which the effect ran, the poller its [id] and [attempts]. *)
Inductive Timer :=
| RefresherTick (captured : option Data) (cid : nat)
    (* setInterval(() => { if (data?.reference?.status === ...) ... }, 3000) *)
| SettleDelay (cid : nat)
    (* await new Promise(resolve => setTimeout(resolve, 2000)) *)
| PollDelay (cid : nat) (attempts : nat)
    (* await new Promise(resolve => setTimeout(resolve, 1000)) *)
| SuccessClear.
    (* successTimeoutRef.current = setTimeout(() => ..., 3000) *)

(** What a callback does to the outside: API calls, state setters, timer
    operations, console output. *)
Inductive Action :=
| CallGetReference (i : nat) (r : nat)
| CallReanalyze (i : nat) (r : nat)
| SetData (d : Data)
| SetLoading (b : bool)
| SetError (msg : string)
| SetReanalyzing (b : bool)
| SetShowSuccessMessage (b : bool)
| SetTimeout (t : nat) (ms : nat)
| SetInterval (t : nat) (ms : nat)
| ClearInterval (t : nat)
| ClearTimeout (t : nat)
| ConsoleError (msg : string).

Record World := mkWorld {
  id : nat;                        (* const { id } = useParams() *)
  data : option Data;              (* useState(null) *)
  loading : bool;                  (* useState(true) *)
  error : string;                  (* useState('') *)
  reanalyzing : bool;              (* useState(false) *)
  showSuccessMessage : bool;       (* useState(false) *)
  isMounted : bool;                (* isMounted.current *)
  successTimeoutRef : option nat;  (* successTimeoutRef.current *)
  interval : nat;                  (* [const interval] of the current effect *)
  timers : gmap nat Timer;         (* pending timers, by handle *)
  requests : gmap nat Pending;     (* in-flight API calls, by handle *)
  next : nat                       (* next fresh handle *)
}.

(** Field updates. *)
Definition with_id (x : nat) (w : World) : World :=
  mkWorld x (data w) (loading w) (error w) (reanalyzing w)
    (showSuccessMessage w) (isMounted w) (successTimeoutRef w) (interval w)
    (timers w) (requests w) (next w).
Definition with_data (x : option Data) (w : World) : World :=
  mkWorld (id w) x (loading w) (error w) (reanalyzing w)
    (showSuccessMessage w) (isMounted w) (successTimeoutRef w) (interval w)
    (timers w) (requests w) (next w).
Definition with_loading (x : bool) (w : World) : World :=
  mkWorld (id w) (data w) x (error w) (reanalyzing w)
    (showSuccessMessage w) (isMounted w) (successTimeoutRef w) (interval w)
    (timers w) (requests w) (next w).
Definition with_error (x : string) (w : World) : World :=
  mkWorld (id w) (data w) (loading w) x (reanalyzing w)
    (showSuccessMessage w) (isMounted w) (successTimeoutRef w) (interval w)
    (timers w) (requests w) (next w).
Definition with_reanalyzing (x : bool) (w : World) : World :=
  mkWorld (id w) (data w) (loading w) (error w) x
    (showSuccessMessage w) (isMounted w) (successTimeoutRef w) (interval w)
    (timers w) (requests w) (next w).
Definition with_showSuccessMessage (x : bool) (w : World) : World :=
  mkWorld (id w) (data w) (loading w) (error w) (reanalyzing w)
    x (isMounted w) (successTimeoutRef w) (interval w)
    (timers w) (requests w) (next w).
Definition with_isMounted (x : bool) (w : World) : World :=
  mkWorld (id w) (data w) (loading w) (error w) (reanalyzing w)
    (showSuccessMessage w) x (successTimeoutRef w) (interval w)
    (timers w) (requests w) (next w).
Definition with_successTimeoutRef (x : option nat) (w : World) : World :=
  mkWorld (id w) (data w) (loading w) (error w) (reanalyzing w)
    (showSuccessMessage w) (isMounted w) x (interval w)
    (timers w) (requests w) (next w).
Definition with_interval (x : nat) (w : World) : World :=
  mkWorld (id w) (data w) (loading w) (error w) (reanalyzing w)
    (showSuccessMessage w) (isMounted w) (successTimeoutRef w) x
    (timers w) (requests w) (next w).
Definition with_timers (x : gmap nat Timer) (w : World) : World :=
  mkWorld (id w) (data w) (loading w) (error w) (reanalyzing w)
    (showSuccessMessage w) (isMounted w) (successTimeoutRef w) (interval w)
    x (requests w) (next w).
Definition with_requests (x : gmap nat Pending) (w : World) : World :=
  mkWorld (id w) (data w) (loading w) (error w) (reanalyzing w)
    (showSuccessMessage w) (isMounted w) (successTimeoutRef w) (interval w)
    (timers w) x (next w).
Definition with_next (x : nat) (w : World) : World :=
  mkWorld (id w) (data w) (loading w) (error w) (reanalyzing w)
    (showSuccessMessage w) (isMounted w) (successTimeoutRef w) (interval w)
    (timers w) (requests w) x.

(** ** Commands *)

(** A callback body: it updates the world and emits actions in order. *)
Definition Cmd : Type := World → World * list Action.

Definition skip : Cmd := λ w, (w, []).

Definition andThen (c1 c2 : Cmd) : Cmd :=
  λ w, let '(w1, l1) := c1 w in
       let '(w2, l2) := c2 w1 in (w2, l1 ++ l2).

Declare Scope cmd_scope.
Notation "c1 ;; c2" := (andThen c1 c2)
  (at level 100, c2 at level 200, right associativity) : cmd_scope.
Local Open Scope cmd_scope.

(** [if (isMounted.current) { c }] *)
Definition ifMounted (c : Cmd) : Cmd :=
  λ w, if isMounted w then c w else skip w.

Definition setData (d : Data) : Cmd :=
  λ w, (with_data (Some d) w, [SetData d]).
Definition setLoading (b : bool) : Cmd :=
  λ w, (with_loading b w, [SetLoading b]).
Definition setError (msg : string) : Cmd :=
  λ w, (with_error msg w, [SetError msg]).
Definition setReanalyzing (b : bool) : Cmd :=
  λ w, (with_reanalyzing b w, [SetReanalyzing b]).
Definition setShowSuccessMessage (b : bool) : Cmd :=
  λ w, (with_showSuccessMessage b w, [SetShowSuccessMessage b]).
Definition consoleError (msg : string) : Cmd :=
  λ w, (w, [ConsoleError msg]).

(** [setTimeout(k, ms)] and [setInterval(k, ms)]: the callback is stored
    under a fresh handle. *)
Definition setTimeout (k : Timer) (ms : nat) : Cmd :=
  λ w, (with_next (S (next w)) (with_timers (<[next w := k]> (timers w)) w),
        [SetTimeout (next w) ms]).
Definition setInterval (k : Timer) (ms : nat) : Cmd :=
  λ w, (with_next (S (next w)) (with_timers (<[next w := k]> (timers w)) w),
        [SetInterval (next w) ms]).
Definition clearTimeout (t : nat) : Cmd :=
  λ w, (with_timers (delete t (timers w)) w, [ClearTimeout t]).
Definition clearInterval (t : nat) : Cmd :=
  λ w, (with_timers (delete t (timers w)) w, [ClearInterval t]).

(** An API call followed by [await]: the request is in flight under a
    fresh handle and the rest of the function is parked as [k]. *)
Definition await (call : nat → Action) (k : Pending) : Cmd :=
  λ w, (with_next (S (next w)) (with_requests (<[next w := k]> (requests w)) w),
        [call (next w)]).

(** ** The component *)

Definition msg_load_failed : string := "Failed to load report"%string.
Definition msg_poll_failed : string :=
  "Analysis may still be in progress. Please refresh."%string.
Definition msg_reanalyze_failed : string :=
  "Failed to reanalyze. Please try again."%string.

(** The constant [maxAttempts] of handleReanalyze. *)
Definition maxAttempts_src : nat := 15.

(** [data?.reference?.status === 'processing'] *)
Definition is_processing (d : option Data) : bool :=
  match d with
  | Some d => bool_decide (status (reference d) = processing)
  | None => false
  end.

(** fetchReport: up to the [await], then the two ways it resumes. *)
Definition fetchReport (i : nat) : Cmd :=
  await (CallGetReference i) AwaitFetchReport.

Definition fetchReport_resolved (response : Data) : Cmd :=
  ifMounted (setData response ;; setLoading false).

Definition fetchReport_rejected : Cmd :=
  ifMounted (setError msg_load_failed ;; setLoading false).

(** The effect of [useEffect(..., [id])]: its body, the interval callback
    and the cleanup it returns. *)
Definition useEffect : Cmd :=
  λ w, ((λ w, (with_isMounted true w, [])) ;;
        fetchReport (id w) ;;
        (λ w', (with_interval (next w') w', [])) ;;
        setInterval (RefresherTick (data w) (id w)) 3000) w.

Definition refresher_tick (captured : option Data) (cid : nat) : Cmd :=
  if is_processing captured then fetchReport cid else skip.

Definition useEffect_cleanup : Cmd :=
  (λ w, (with_isMounted false w, [])) ;;
  (λ w, clearInterval (interval w) w) ;;
  (λ w, match successTimeoutRef w with
        | Some t => clearTimeout t w
        | None => skip w
        end).

Section Poller.

(** [const maxAttempts = 15] in the source; a parameter here so that the
    loop can be studied for every bound. *)
Variable maxAttempts : nat.

(** handleReanalyze up to [await referenceAPI.reanalyze(id)]. *)
Definition handleReanalyze (i : nat) : Cmd :=
  setReanalyzing true ;;
  setError EmptyString ;;
  setShowSuccessMessage false ;;
  await (CallReanalyze i) (AwaitReanalyze i).

(** [finally { if (isMounted.current) setReanalyzing(false) }] *)
Definition handleReanalyze_finally : Cmd :=
  ifMounted (setReanalyzing false).

(** [catch (err)] of handleReanalyze, then [finally]. *)
Definition handleReanalyze_rejected : Cmd :=
  ifMounted (setError msg_reanalyze_failed ;;
             consoleError "Reanalyze error:"%string) ;;
  handleReanalyze_finally.

(** After [await referenceAPI.reanalyze(id)]: the settling delay. *)
Definition handleReanalyze_resolved (cid : nat) : Cmd :=
  setTimeout (SettleDelay cid) 2000.

(** pollForResults up to its [await]; [attempts] is the closure variable. *)
Definition pollForResults (cid attempts : nat) : Cmd :=
  await (CallGetReference cid) (AwaitPoll cid attempts).

(** After the settling delay: [let attempts = 0], first pollForResults(). *)
Definition settling_elapsed (cid : nat) : Cmd :=
  pollForResults cid 0.

(** After [await pollForResults()]: the success notification with its
    auto-clear timer, then [finally]. *)
Definition after_poll : Cmd :=
  ifMounted (setShowSuccessMessage true ;;
             (λ w, (setTimeout SuccessClear 3000 ;;
                    (λ w', (with_successTimeoutRef (Some (next w)) w', []))) w)) ;;
  handleReanalyze_finally.

(** pollForResults after its fetch resolved. *)
Definition pollForResults_resolved (cid attempts : nat) (response : Data) : Cmd :=
  if bool_decide (status (reference response) = processing)
     && bool_decide (attempts < maxAttempts)
  then setTimeout (PollDelay cid (S attempts)) 1000
  else ifMounted (setData response) ;; after_poll.

(** After the inter-poll delay: [return pollForResults()]. *)
Definition interpoll_elapsed (cid attempts : nat) : Cmd :=
  pollForResults cid attempts.

(** [catch (pollError)] of pollForResults; the promise it returns is
    fulfilled, so handleReanalyze goes on after its [await]. *)
Definition pollForResults_rejected : Cmd :=
  consoleError "Polling error:"%string ;;
  ifMounted (setError msg_poll_failed) ;;
  after_poll.

(** The callback of the success timer. *)
Definition success_clear : Cmd :=
  ifMounted (setShowSuccessMessage false).

(** ** Rendering *)

Inductive Screen :=
| LoadingSpinner
| ErrorPage (msg : string)
| InProgress (reanalyzing_text : bool)
| AnalysisFailed (retry_disabled : bool)
| Report (success_banner : bool) (error_banner : option string)
         (reanalyze_disabled : bool)
| RenderThrows.

Definition truthy (s : string) : bool := negb (bool_decide (s = EmptyString)).

(** The chain of early returns of the component body. *)
Definition render (w : World) : Screen :=
  if loading w then LoadingSpinner
  else if truthy (error w) && bool_decide (data w = None) then ErrorPage (error w)
  else match data w with
       | None => RenderThrows   (* const { reference, report } = data *)
       | Some d =>
           if bool_decide (status (reference d) = processing) || reanalyzing w
           then InProgress (reanalyzing w)
           else if bool_decide (status (reference d) = failed)
           then AnalysisFailed (reanalyzing w)
           else Report (showSuccessMessage w)
                       (if truthy (error w) then Some (error w) else None)
                       (reanalyzing w)
       end.

(** A button with [onClick={handleReanalyze}] is on screen and enabled. *)
Definition can_reanalyze (w : World) : bool :=
  match render w with
  | AnalysisFailed false | Report _ _ false => true
  | _ => false
  end.

(** ** The event loop *)

Inductive Event :=
| Click                          (* the user presses Reanalyze / Retry *)
| Navigate (i : nat)             (* the route parameter [:id] changes *)
| Unmount                        (* the view is detached *)
| Fire (t : nat)                 (* timer [t] elapses *)
| Resolve (r : nat) (response : Data)   (* request [r] is fulfilled *)
| Reject (r : nat).              (* request [r] is rejected *)

Definition run_timer (k : Timer) : Cmd :=
  match k with
  | RefresherTick captured cid => refresher_tick captured cid
  | SettleDelay cid => settling_elapsed cid
  | PollDelay cid attempts => interpoll_elapsed cid attempts
  | SuccessClear => success_clear
  end.

(** A timeout is spent when it fires; an interval stays installed. *)
Definition one_shot (k : Timer) : bool :=
  match k with RefresherTick _ _ => false | _ => true end.

Definition run_resolved (k : Pending) (response : Data) : Cmd :=
  match k with
  | AwaitFetchReport => fetchReport_resolved response
  | AwaitReanalyze cid => handleReanalyze_resolved cid
  | AwaitPoll cid attempts => pollForResults_resolved cid attempts response
  end.

Definition run_rejected (k : Pending) : Cmd :=
  match k with
  | AwaitFetchReport => fetchReport_rejected
  | AwaitReanalyze _ => handleReanalyze_rejected
  | AwaitPoll _ _ => pollForResults_rejected
  end.

Definition step (w : World) (e : Event) : World * list Action :=
  match e with
  | Click =>
      if isMounted w && can_reanalyze w then handleReanalyze (id w) w
      else skip w
  | Navigate i =>
      if isMounted w && negb (bool_decide (i = id w))
      then (useEffect_cleanup ;; useEffect) (with_id i w)
      else skip w
  | Unmount =>
      if isMounted w then useEffect_cleanup w else skip w
  | Fire t =>
      match timers w !! t with
      | Some k =>
          run_timer k
            (if one_shot k then with_timers (delete t (timers w)) w else w)
      | None => skip w
      end
  | Resolve r response =>
      match requests w !! r with
      | Some k => run_resolved k response (with_requests (delete r (requests w)) w)
      | None => skip w
      end
  | Reject r =>
      match requests w !! r with
      | Some k => run_rejected k (with_requests (delete r (requests w)) w)
      | None => skip w
      end
  end.

(** The world after a list of events, with everything emitted on the way. *)
Fixpoint run (w : World) (es : list Event) : World * list Action :=
  match es with
  | [] => (w, [])
  | e :: es' =>
      let '(w1, l1) := step w e in
      let '(w2, l2) := run w1 es' in (w2, l1 ++ l2)
  end.

End Poller.

(** First render and first run of the effect. *)
Definition initial (i : nat) : World :=
  mkWorld i None true EmptyString false false true None 0 ∅ ∅ 0.

Definition mount (i : nat) : World * list Action := useEffect (initial i).

(** The world after the events [es] delivered to a view mounted on [i]. *)
Definition after (maxAttempts i : nat) (es : list Event) : World :=
  (run maxAttempts (mount i).1 es).1.

(** ** Observations *)

Definition is_fetch (a : Action) : bool :=
  match a with CallGetReference _ _ => true | _ => false end.

(** A call of one of the state setters. *)
Definition is_mutation (a : Action) : bool :=
  match a with
  | SetData _ | SetLoading _ | SetError _
  | SetReanalyzing _ | SetShowSuccessMessage _ => true
  | _ => false
  end.

Definition is_setData (a : Action) : bool :=
  match a with SetData _ => true | _ => false end.

Definition fetch_calls (l : list Action) : nat := length (filter is_fetch l).

Definition is_trigger (k : Pending) : bool :=
  match k with AwaitReanalyze _ => true | _ => false end.
Definition is_settle (k : Timer) : bool :=
  match k with SettleDelay _ => true | _ => false end.
Definition is_refresher (k : Timer) : bool :=
  match k with RefresherTick _ _ => true | _ => false end.
Definition is_poll_delay (k : Timer) : bool :=
  match k with PollDelay _ _ => true | _ => false end.

Definition any_pending {A} (p : A → bool) (m : gmap nat A) : bool :=
  existsb p (snd <$> map_to_list m).

(** The phase of the poller as the view exposes it.  A cycle is in flight
    from the click to [finally], which is what [reanalyzing] records; the
    parked continuation tells how far it got.  Once it is over, the success
    notification stands for [Succeeded] and the trigger error for [Failed]. *)
Inductive Phase := Idle | Triggering | Settling | Polling | Succeeded | Failed.

Definition poller_phase (w : World) : Phase :=
  if reanalyzing w then
    if any_pending is_trigger (requests w) then Triggering
    else if any_pending is_settle (timers w) then Settling
    else Polling
  else if showSuccessMessage w then Succeeded
  else if bool_decide (error w = msg_reanalyze_failed) then Failed
  else Idle.

(** Fetches issued by ticks of the refresher along a run. *)
Fixpoint refresher_fetches (maxAttempts : nat) (w : World) (es : list Event) : nat :=
  match es with
  | [] => 0
  | e :: es' =>
      (match e with
       | Fire t =>
           match timers w !! t with
           | Some (RefresherTick _ _) => fetch_calls (step maxAttempts w e).2
           | _ => 0
           end
       | _ => 0
       end) + refresher_fetches maxAttempts (step maxAttempts w e).1 es'
  end.

Definition no_navigation (e : Event) : bool :=
  match e with Navigate _ => false | _ => true end.

(** The events of a poll loop whose first fetch is request [h]: each result
    is delivered, and the inter-poll timer fires before the next one. *)
Fixpoint poll_events (h : nat) (results : list (option Data)) : list Event :=
  match results with
  | [] => []
  | res :: rest =>
      (match res with Some d => Resolve h d | None => Reject h end) ::
      match rest with
      | [] => []
      | _ => Fire (S h) :: poll_events (S (S h)) rest
      end
  end.

(** The events of one whole cycle started by a click in a world whose next
    fresh handle is [h]: the trigger is accepted (its reply carries nothing
    the code reads), the settling timer fires, then the poll loop runs. *)
Definition cycle_events (h : nat) (reply : Data) (results : list (option Data))
  : list Event :=
  Click :: Resolve h reply :: Fire (S h) :: poll_events (S (S h)) results.

(** What the loop emits while it goes round [n] times from request [h]. *)
Fixpoint poll_rounds (cid h n : nat) : list Action :=
  match n with
  | 0 => []
  | S n' =>
      SetTimeout (S h) 1000 :: CallGetReference cid (S (S h))
        :: poll_rounds cid (S (S h)) n'
  end.

(** A record of reference [i] with status [s], for concrete runs. *)
Definition sample (i : nat) (s : Status) : Data :=
  {| reference := {| reference_id := i; status := s |}; report := 0 |}.

(** Reference 7 is mounted and its first load returns a completed record;
    then the user starts a reanalysis, which is accepted (settling); then
    the settling timer fires and the first poll fetch is in flight. *)
Definition loaded : list Event := [Resolve 0 (sample 7 completed)].
Definition in_settling : list Event :=
  loaded ++ [Click; Resolve 2 (sample 7 completed)].
Definition in_polling : list Event := in_settling ++ [Fire 3].

(** A processing record of reference 7 is on screen when the route changes
    to reference 8, whose record is completed; the user then starts a
    reanalysis of 8. *)
Definition navigated_then_clicked : list Event :=
  [Resolve 0 (sample 7 processing); Navigate 8;
   Resolve 2 (sample 8 completed); Click].

(** ** Invariants *)

(** Handles in use lie below the next fresh one. *)
Record handles_fresh (w : World) : Prop := {
  fresh_timers : ∀ h k, timers w !! h = Some k → h < next w;
  fresh_requests : ∀ h k, requests w !! h = Some k → h < next w;
  fresh_interval : interval w < next w;
  fresh_success : ∀ t, successTimeoutRef w = Some t → t < next w
}.

(** What the handles kept by the view point to. *)
Record handles_kinds (w : World) : Prop := {
  kind_refresher : ∀ t c i,
    timers w !! t = Some (RefresherTick c i) → isMounted w = true ∧ t = interval w;
  kind_interval : ∀ k,
    timers w !! interval w = Some k → is_refresher k = true;
  kind_success : ∀ t k,
    successTimeoutRef w = Some t → timers w !! t = Some k → k = SuccessClear
}.

(** [attempts <= maxAttempts] in every parked continuation of the loop. *)
Record attempts_bounded (maxAttempts : nat) (w : World) : Prop := {
  bounded_requests : ∀ r cid a,
    requests w !! r = Some (AwaitPoll cid a) → a ≤ maxAttempts;
  bounded_timers : ∀ t cid a,
    timers w !! t = Some (PollDelay cid a) → a ≤ maxAttempts
}.

(** Continuations of handleReanalyze, as opposed to those of fetchReport,
    of the refresher and of the success notification. *)
Definition is_cycle_request (k : Pending) : bool :=
  match k with AwaitFetchReport => false | _ => true end.
Definition is_cycle_timer (k : Timer) : bool :=
  match k with SettleDelay _ | PollDelay _ _ => true | _ => false end.

(** At most one continuation of handleReanalyze is parked, and none while
    a mounted view has [reanalyzing] false: the flag and the parked
    continuation agree on whether a cycle is in flight. *)
Record one_cycle (w : World) : Prop := {
  cycle_requests : ∀ h h' k k',
    requests w !! h = Some k → is_cycle_request k = true →
    requests w !! h' = Some k' → is_cycle_request k' = true → h = h';
  cycle_timers : ∀ h h' k k',
    timers w !! h = Some k → is_cycle_timer k = true →
    timers w !! h' = Some k' → is_cycle_timer k' = true → h = h';
  cycle_either : ∀ h h' k k',
    requests w !! h = Some k → is_cycle_request k = true →
    timers w !! h' = Some k' → is_cycle_timer k' = true → False;
  idle_requests : ∀ h k,
    isMounted w = true → reanalyzing w = false →
    requests w !! h = Some k → is_cycle_request k = false;
  idle_timers : ∀ h k,
    isMounted w = true → reanalyzing w = false →
    timers w !! h = Some k → is_cycle_timer k = false
}.

(** Every refresher closure captured [data = null]. *)
Definition captured_null (w : World) : Prop :=
  ∀ t c i, timers w !! t = Some (RefresherTick c i) → c = None.

(** ** Invariants of the view outside a reanalysis cycle *)

(** Once the first reply is in, there is a record or an error to show. *)
Definition has_content (w : World) : Prop :=
  loading w = false → is_Some (data w) ∨ error w ≠ EmptyString.

(** The interval of the current effect is installed, and its callback
    fetches the reference of the current route. *)
Definition interval_installed (w : World) : Prop :=
  isMounted w = true →
  ∃ c, timers w !! interval w = Some (RefresherTick c (id w)).

(** A view at rest on a processing record: nothing in flight, and no timer
    left but refresher intervals that captured [null] and success timers. *)
Definition stalled (w : World) : Prop :=
  loading w = false ∧ reanalyzing w = false
  ∧ is_processing (data w) = true
  ∧ requests w = ∅
  ∧ ∀ t k, timers w !! t = Some k →
           k = SuccessClear ∨ ∃ cid, k = RefresherTick None cid.

(** Without a route change the only fetchReport in flight is the one of
    the mount, and the spinner is on while it is. *)
Definition first_load_only (w : World) : Prop :=
  ∀ r, requests w !! r = Some AwaitFetchReport → r = 0 ∧ loading w = true.

(** Reference 7 after one reanalysis that succeeded at its first poll: the
    notification is on and its timer, 5, is pending. *)
Definition reanalysed_once : list Event :=
  loaded ++ cycle_events 2 (sample 7 completed) [Some (sample 7 completed)].

(** ** The first ReportPage

    The earliest [frontend/src/pages/ReportPage.jsx] of the history: no
    liveness flag, no poll loop and no success note; a reanalysis is one
    trigger and one fetch two seconds later.  The instance is followed
    while it is mounted. *)
Module ReportPageV1.

Inductive Pending :=
| AwaitFetchReport
    (* fetchReport, at [await referenceAPI.getReference(id)] *)
| AwaitReanalyze (cid : nat).
    (* handleReanalyze, at [await referenceAPI.reanalyze(id)] *)

Inductive Timer :=
| RefresherTick (captured : option Data) (cid : nat)
    (* the setInterval callback, with the [data] and [id] of its render *)
| FetchDelay (cid : nat).
    (* [setTimeout(fetchReport, 2000)] *)

Record World := mkWorld {
  id : nat;                        (* const { id } = useParams() *)
  data : option Data;              (* useState(null) *)
  loading : bool;                  (* useState(true) *)
  error : string;                  (* useState('') *)
  reanalyzing : bool;              (* useState(false) *)
  interval : nat;                  (* the handle the cleanup clears *)
  timers : gmap nat Timer;
  requests : gmap nat Pending;
  next : nat
}.

Definition msg_load_failed : string := "Failed to load report".
Definition msg_reanalyze_failed : string := "Failed to reanalyze".

(** fetchReport up to its [await]. *)
Definition fetchReport (i : nat) (w : World) : World * list Action :=
  (mkWorld (id w) (data w) (loading w) (error w) (reanalyzing w) (interval w)
     (timers w) (<[next w := AwaitFetchReport]> (requests w)) (S (next w)),
   [CallGetReference i (next w)]).

Definition fetchReport_resolved (response : Data) (w : World)
  : World * list Action :=
  (mkWorld (id w) (Some response) false (error w) (reanalyzing w) (interval w)
     (timers w) (requests w) (next w),
   [SetData response; SetLoading false]).

Definition fetchReport_rejected (w : World) : World * list Action :=
  (mkWorld (id w) (data w) false msg_load_failed (reanalyzing w) (interval w)
     (timers w) (requests w) (next w),
   [SetError msg_load_failed; SetLoading false]).

(** The effect of [useEffect(..., [id])]. *)
Definition useEffect (w : World) : World * list Action :=
  let '(w1, l1) := fetchReport (id w) w in
  (mkWorld (id w1) (data w1) (loading w1) (error w1) (reanalyzing w1) (next w1)
     (<[next w1 := RefresherTick (data w) (id w)]> (timers w1)) (requests w1)
     (S (next w1)),
   l1 ++ [SetInterval (next w1) 3000]).

Definition useEffect_cleanup (w : World) : World * list Action :=
  (mkWorld (id w) (data w) (loading w) (error w) (reanalyzing w) (interval w)
     (delete (interval w) (timers w)) (requests w) (next w),
   [ClearInterval (interval w)]).

Definition refresher_tick (captured : option Data) (cid : nat) (w : World)
  : World * list Action :=
  if is_processing captured then fetchReport cid w else (w, []).

(** handleReanalyze up to its [await]. *)
Definition handleReanalyze (w : World) : World * list Action :=
  (mkWorld (id w) (data w) (loading w) (error w) true (interval w)
     (timers w) (<[next w := AwaitReanalyze (id w)]> (requests w))
     (S (next w)),
   [SetReanalyzing true; CallReanalyze (id w) (next w)]).

Definition handleReanalyze_resolved (cid : nat) (w : World)
  : World * list Action :=
  (mkWorld (id w) (data w) (loading w) (error w) false (interval w)
     (<[next w := FetchDelay cid]> (timers w)) (requests w) (S (next w)),
   [SetTimeout (next w) 2000; SetReanalyzing false]).

Definition handleReanalyze_rejected (w : World) : World * list Action :=
  (mkWorld (id w) (data w) (loading w) msg_reanalyze_failed false (interval w)
     (timers w) (requests w) (next w),
   [SetError msg_reanalyze_failed; SetReanalyzing false]).

Inductive Screen :=
| LoadingSpinner
| ErrorPage (msg : string)
| InProgress
| AnalysisFailed                 (* with the Retry Analysis button *)
| Report (disabled : bool)      (* with the Reanalyze button *)
| RenderThrows.

Definition render (w : World) : Screen :=
  if loading w then LoadingSpinner
  else if truthy (error w) then ErrorPage (error w)
  else match data w with
       | None => RenderThrows   (* const { reference, report } = data *)
       | Some d =>
           if bool_decide (status (reference d) = processing) then InProgress
           else if bool_decide (status (reference d) = failed)
           then AnalysisFailed
           else Report (reanalyzing w)
       end.

Definition can_reanalyze (w : World) : bool :=
  match render w with
  | AnalysisFailed | Report false => true
  | _ => false
  end.

Inductive Event :=
| Click
| Navigate (i : nat)
| Fire (t : nat)
| Resolve (r : nat) (response : Data)
| Reject (r : nat).

Definition with_id (i : nat) (w : World) : World :=
  mkWorld i (data w) (loading w) (error w) (reanalyzing w) (interval w)
    (timers w) (requests w) (next w).
Definition with_timers (ts : gmap nat Timer) (w : World) : World :=
  mkWorld (id w) (data w) (loading w) (error w) (reanalyzing w) (interval w)
    ts (requests w) (next w).
Definition with_requests (rs : gmap nat Pending) (w : World) : World :=
  mkWorld (id w) (data w) (loading w) (error w) (reanalyzing w) (interval w)
    (timers w) rs (next w).

Definition step (w : World) (e : Event) : World * list Action :=
  match e with
  | Click => if can_reanalyze w then handleReanalyze w else (w, [])
  | Navigate i =>
      if bool_decide (i = id w) then (w, [])
      else let '(w1, l1) := useEffect_cleanup (with_id i w) in
           let '(w2, l2) := useEffect w1 in (w2, l1 ++ l2)
  | Fire t =>
      match timers w !! t with
      | Some (RefresherTick captured cid) => refresher_tick captured cid w
      | Some (FetchDelay cid) =>
          fetchReport cid (with_timers (delete t (timers w)) w)
      | None => (w, [])
      end
  | Resolve r response =>
      match requests w !! r with
      | Some AwaitFetchReport =>
          fetchReport_resolved response
            (with_requests (delete r (requests w)) w)
      | Some (AwaitReanalyze cid) =>
          handleReanalyze_resolved cid
            (with_requests (delete r (requests w)) w)
      | None => (w, [])
      end
  | Reject r =>
      match requests w !! r with
      | Some AwaitFetchReport =>
          fetchReport_rejected (with_requests (delete r (requests w)) w)
      | Some (AwaitReanalyze _) =>
          handleReanalyze_rejected (with_requests (delete r (requests w)) w)
      | None => (w, [])
      end
  end.

Fixpoint run (w : World) (es : list Event) : World * list Action :=
  match es with
  | [] => (w, [])
  | e :: es' =>
      let '(w1, l1) := step w e in
      let '(w2, l2) := run w1 es' in (w2, l1 ++ l2)
  end.

Definition mount (i : nat) : World * list Action :=
  useEffect (mkWorld i None true EmptyString false 0 ∅ ∅ 0).

(** The error page is on screen, with [msg] or one of the two messages of
    the page. *)
Definition error_shown (msg : string) (w : World) : Prop :=
  loading w = false
  ∧ (error w = msg_load_failed ∨ error w = msg_reanalyze_failed
     ∨ (error w = msg ∧ msg ≠ EmptyString)).

End ReportPageV1.

(** ** HistoryPage

    [frontend/src/pages/HistoryPage.jsx]: the list of analysed references
    with its load, retry and delete handlers.  A handler closes over the
    [references] of the render in which it was created, so the
    continuation of a delete carries the list it will filter. *)
Module HistoryPage.

(** A row of [response.data]; of its fields the handlers read
    [reference_id] and the table reads [status] to offer the report. *)
Record Row := { reference_id : nat; url : string; status : Status }.

#[global] Instance Row_eq_dec : EqDecision Row.
Proof. solve_decision. Defined.

(** [response.data] of getHistory: an array, or an object whose
    [references] field may be missing. *)
Inductive HistoryData :=
| DataArray (rows : list Row)
| DataObject (references : option (list Row)).

Inductive Pending :=
| AwaitHistory
    (* fetchHistory, at [await referenceAPI.getHistory()] *)
| AwaitDelete (id : nat) (captured : list Row).
    (* handleDelete, at [await referenceAPI.deleteReference(id)] *)

Inductive Action :=
| CallGetHistory (r : nat)
| CallDeleteReference (id : nat) (r : nat)
| Confirm (msg : string) (answer : bool)
| Alert (msg : string)
| ConsoleLog (msg : string)
| ConsoleError (msg : string)
| SetReferences (rows : list Row)
| SetError (msg : string)
| SetLoading (b : bool).

Record World := mkWorld {
  references : list Row;          (* useState([]) *)
  loading : bool;                 (* useState(true) *)
  error : string;                 (* useState('') *)
  requests : gmap nat Pending;    (* in-flight API calls, by handle *)
  next : nat                      (* next fresh handle *)
}.

Definition msg_history_failed : string := "Failed to load reference history".
Definition msg_delete_failed : string := "Failed to delete reference".
Definition msg_confirm : string :=
  "Are you sure you want to delete this reference?".

(** [Array.isArray(response.data) ? response.data
      : response.data.references || []] *)
Definition rows_of (d : HistoryData) : list Row :=
  match d with
  | DataArray rows => rows
  | DataObject (Some rows) => rows
  | DataObject None => []
  end.

(** fetchHistory up to its [await]. *)
Definition fetchHistory (w : World) : World * list Action :=
  (mkWorld (references w) (loading w) (error w)
     (<[next w := AwaitHistory]> (requests w)) (S (next w)),
   [CallGetHistory (next w)]).

(** The [try] body after the await, then [finally]. *)
Definition fetchHistory_resolved (d : HistoryData) (w : World)
  : World * list Action :=
  (mkWorld (rows_of d) false EmptyString (requests w) (next w),
   [ConsoleLog "History API response:"; SetReferences (rows_of d);
    SetError EmptyString; SetLoading false]).

(** [catch (err)], then [finally]. *)
Definition fetchHistory_rejected (w : World) : World * list Action :=
  (mkWorld [] false msg_history_failed (requests w) (next w),
   [ConsoleError "Failed to load history"; SetError msg_history_failed;
    SetReferences []; SetLoading false]).

(** handleDelete up to its [await]; [answer] is what confirm() returns. *)
Definition handleDelete (id : nat) (answer : bool) (w : World)
  : World * list Action :=
  if answer then
    (mkWorld (references w) (loading w) (error w)
       (<[next w := AwaitDelete id (references w)]> (requests w)) (S (next w)),
     [Confirm msg_confirm true; CallDeleteReference id (next w)])
  else (w, [Confirm msg_confirm false]).

(** [references.filter(ref => ref.reference_id !== id)] *)
Definition without (id : nat) (rows : list Row) : list Row :=
  filter (λ ref, reference_id ref ≠ id) rows.

Definition handleDelete_resolved (id : nat) (captured : list Row) (w : World)
  : World * list Action :=
  (mkWorld (without id captured) (loading w) (error w) (requests w) (next w),
   [SetReferences (without id captured)]).

Definition handleDelete_rejected (w : World) : World * list Action :=
  (w, [Alert msg_delete_failed]).

(** The early returns of the component body. *)
Inductive Screen :=
| LoadingSpinner
| ErrorPage (msg : string)       (* with the Try Again button *)
| EmptyState
| Table (rows : list Row).       (* a delete button in every row *)

Definition render (w : World) : Screen :=
  if loading w then LoadingSpinner
  else if negb (bool_decide (error w = EmptyString)) then ErrorPage (error w)
  else match references w with
       | [] => EmptyState
       | rows => Table rows
       end.

Inductive Event :=
| ClickTryAgain
| ClickDelete (id : nat) (answer : bool)
| Resolve (r : nat) (d : HistoryData)
| Reject (r : nat).

Definition drop (r : nat) (w : World) : World :=
  mkWorld (references w) (loading w) (error w) (delete r (requests w)) (next w).

Definition step (w : World) (e : Event) : World * list Action :=
  match e with
  | ClickTryAgain =>
      match render w with
      | ErrorPage _ => fetchHistory w
      | _ => (w, [])
      end
  | ClickDelete id answer =>
      match render w with
      | Table rows =>
          if bool_decide (id ∈ reference_id <$> rows)
          then handleDelete id answer w else (w, [])
      | _ => (w, [])
      end
  | Resolve r d =>
      match requests w !! r with
      | Some AwaitHistory => fetchHistory_resolved d (drop r w)
      | Some (AwaitDelete id captured) =>
          handleDelete_resolved id captured (drop r w)
      | None => (w, [])
      end
  | Reject r =>
      match requests w !! r with
      | Some AwaitHistory => fetchHistory_rejected (drop r w)
      | Some (AwaitDelete _ _) => handleDelete_rejected (drop r w)
      | None => (w, [])
      end
  end.

Fixpoint run (w : World) (es : list Event) : World * list Action :=
  match es with
  | [] => (w, [])
  | e :: es' =>
      let '(w1, l1) := step w e in
      let '(w2, l2) := run w1 es' in (w2, l1 ++ l2)
  end.

(** First render, and the effect that calls fetchHistory. *)
Definition mount : World * list Action :=
  fetchHistory (mkWorld [] true EmptyString ∅ 0).

(** The table is on screen with [rows] and nothing is in flight. *)
Definition showing (rows : list Row) (w : World) : Prop :=
  references w = rows ∧ loading w = false ∧ error w = EmptyString
  ∧ requests w = ∅ ∧ rows ≠ [].

Definition is_delete_call (a : Action) : bool :=
  match a with CallDeleteReference _ _ => true | _ => false end.
Definition is_history_call (a : Action) : bool :=
  match a with CallGetHistory _ => true | _ => false end.

(** A table of two references, as the first load shows it. *)
Definition two_rows : list Row :=
  [ {| reference_id := 1; url := "https://a.example"; status := completed |};
    {| reference_id := 2; url := "https://b.example"; status := completed |} ].
Definition loaded_table : World :=
  (run mount.1 [Resolve 0 (DataArray two_rows)]).1.

(** The error page, as a first load that failed leaves it. *)
Definition failed_load : World := (run mount.1 [Reject 0]).1.

End HistoryPage.

(** ** CheckReferencePage

    [frontend/src/pages/CheckReferencePage.jsx]: the form that submits a
    URL and, a second after the check was accepted, moves to its report. *)
Module CheckReferencePage.

(** [response.data] of checkReference: missing, or an object whose
    [reference_id] may be missing. *)
Inductive ResponseData :=
| NoData
| Body (reference_id : option string).

Inductive Pending :=
| AwaitCheck.
    (* handleSubmit, at [await referenceAPI.checkReference(url)] *)

Inductive Timer :=
| NavigateDelay (referenceId : option string).
    (* [setTimeout(() => navigate(...), 1000)] *)

Inductive Action :=
| PreventDefault
| CallCheckReference (url : string) (r : nat)
| SetUrl (url : string)
| SetError (msg : string)
| SetLoading (b : bool)
| SetTimeout (t : nat) (ms : nat)
| NavigateTo (path : string).

Record World := mkWorld {
  url : string;                   (* useState('') *)
  loading : bool;                 (* useState(false) *)
  error : string;                 (* useState('') *)
  timers : gmap nat Timer;        (* pending timeouts, by handle *)
  requests : gmap nat Pending;    (* in-flight API calls, by handle *)
  next : nat                      (* next fresh handle *)
}.

Definition msg_check_failed : string := "Failed to check reference".

(** The three example buttons. *)
Definition examples : list string :=
  ["https://www.nature.com/articles/s41586-024-12345";
   "https://arxiv.org/abs/2401.12345";
   "https://www.sciencedirect.com/science/article/..."]%string.

(** [`/report/${referenceId}`] *)
Definition report_path (referenceId : option string) : string :=
  ("/report/" +:+ default "undefined" referenceId)%string.

(** handleSubmit up to its [await]. *)
Definition handleSubmit (w : World) : World * list Action :=
  (mkWorld (url w) true EmptyString (timers w)
     (<[next w := AwaitCheck]> (requests w)) (S (next w)),
   [PreventDefault; SetError EmptyString; SetLoading true;
    CallCheckReference (url w) (next w)]).

(** [catch (err)]: [detail] is [err.response?.data?.detail], taken to be
    a string when it is there. *)
Definition handleSubmit_rejected (detail : option string) (w : World)
  : World * list Action :=
  let msg := match detail with
             | Some d => if bool_decide (d = EmptyString)
                         then msg_check_failed else d
             | None => msg_check_failed
             end in
  (mkWorld (url w) false msg (timers w) (requests w) (next w),
   [SetError msg; SetLoading false]).

(** The [try] body after the await.  Reading [reference_id] of a missing
    [response.data] throws inside the [try], and the error caught has no
    [response]. *)
Definition handleSubmit_resolved (d : ResponseData) (w : World)
  : World * list Action :=
  match d with
  | NoData => handleSubmit_rejected None w
  | Body referenceId =>
      (mkWorld (url w) (loading w) (error w)
         (<[next w := NavigateDelay referenceId]> (timers w)) (requests w)
         (S (next w)),
       [SetTimeout (next w) 1000])
  end.

Definition navigate_elapsed (referenceId : option string) (w : World)
  : World * list Action :=
  (w, [NavigateTo (report_path referenceId)]).

(** The input and the submit button are [disabled={loading}]; the example
    buttons are not. *)
Inductive Event :=
| Type_ (s : string)              (* onChange of the input *)
| ClickExample (i : nat)
| Submit
| Fire (t : nat)
| Resolve (r : nat) (d : ResponseData)
| Reject (r : nat) (detail : option string).

Definition setUrl (s : string) (w : World) : World * list Action :=
  (mkWorld s (loading w) (error w) (timers w) (requests w) (next w),
   [SetUrl s]).

Definition step (w : World) (e : Event) : World * list Action :=
  match e with
  | Type_ s => if loading w then (w, []) else setUrl s w
  | ClickExample i =>
      match examples !! i with
      | Some example => setUrl example w
      | None => (w, [])
      end
  | Submit => if loading w then (w, []) else handleSubmit w
  | Fire t =>
      match timers w !! t with
      | Some (NavigateDelay referenceId) =>
          navigate_elapsed referenceId
            (mkWorld (url w) (loading w) (error w) (delete t (timers w))
               (requests w) (next w))
      | None => (w, [])
      end
  | Resolve r d =>
      match requests w !! r with
      | Some AwaitCheck =>
          handleSubmit_resolved d
            (mkWorld (url w) (loading w) (error w) (timers w)
               (delete r (requests w)) (next w))
      | None => (w, [])
      end
  | Reject r detail =>
      match requests w !! r with
      | Some AwaitCheck =>
          handleSubmit_rejected detail
            (mkWorld (url w) (loading w) (error w) (timers w)
               (delete r (requests w)) (next w))
      | None => (w, [])
      end
  end.

Fixpoint run (w : World) (es : list Event) : World * list Action :=
  match es with
  | [] => (w, [])
  | e :: es' =>
      let '(w1, l1) := step w e in
      let '(w2, l2) := run w1 es' in (w2, l1 ++ l2)
  end.

Definition mount : World := mkWorld EmptyString false EmptyString ∅ ∅ 0.

Definition is_navigate (a : Action) : bool :=
  match a with NavigateTo _ => true | _ => false end.
Definition is_check_call (a : Action) : bool :=
  match a with CallCheckReference _ _ => true | _ => false end.

Definition navigations (l : list Action) : nat :=
  length (filter (λ a, is_navigate a = true) l).

(** Where a page instance is between submissions: the form is enabled and
    nothing is parked; a check is in flight; the move to the report is
    parked; the move has been made. *)
Inductive Stage (w : World) (navigations : nat) : Prop :=
| FormEnabled :
    loading w = false → requests w = ∅ → timers w = ∅ → navigations = 0 →
    Stage w navigations
| CheckInFlight r :
    loading w = true → requests w = {[r := AwaitCheck]} → timers w = ∅ →
    navigations = 0 → Stage w navigations
| MoveParked t referenceId :
    loading w = true → requests w = ∅ →
    timers w = {[t := NavigateDelay referenceId]} → navigations = 0 →
    Stage w navigations
| Moved :
    loading w = true → requests w = ∅ → timers w = ∅ → navigations = 1 →
    Stage w navigations.

End CheckReferencePage.

(** ** RatingWidget

    [frontend/src/components/RatingWidget.jsx]: five stars, a comment and
    a submit handler that hands the rating to the [onRate] of its parent. *)
Module RatingWidget.

Inductive Pending :=
| AwaitOnRate.
    (* handleSubmit, at [await onRate(referenceId, rating, comment)] *)

Inductive Action :=
| PreventDefault
| CallOnRate (rating : nat) (comment : string) (r : nat)
| SetRating (star : nat)
| SetHover (star : nat)
| SetComment (s : string)
| SetSubmitted (b : bool).

Record World := mkWorld {
  rating : nat;                   (* useState(0) *)
  hover : nat;                    (* useState(0) *)
  comment : string;               (* useState('') *)
  submitted : bool;               (* useState(false) *)
  requests : gmap nat Pending;    (* calls of onRate not yet settled *)
  next : nat
}.

(** The stars the form maps over. *)
Definition stars : list nat := [1; 2; 3; 4; 5].

(** handleSubmit up to its [await]. *)
Definition handleSubmit (w : World) : World * list Action :=
  if bool_decide (rating w = 0) then (w, [PreventDefault])
  else (mkWorld (rating w) (hover w) (comment w) (submitted w)
          (<[next w := AwaitOnRate]> (requests w)) (S (next w)),
        [PreventDefault; CallOnRate (rating w) (comment w) (next w)]).

Definition handleSubmit_resolved (w : World) : World * list Action :=
  (mkWorld (rating w) (hover w) (comment w) true (requests w) (next w),
   [SetSubmitted true]).

(** [star <= (hover || rating)]: the stars drawn filled. *)
Definition filled (w : World) : list nat :=
  filter (λ star, star ≤ (if bool_decide (hover w = 0) then rating w
                          else hover w)) stars.

Inductive Screen :=
| ThankYou
| Form (filled : list nat) (submit_disabled : bool).

Definition render (w : World) : Screen :=
  if submitted w then ThankYou
  else Form (filled w) (bool_decide (rating w = 0)).

(** The events of the form exist while the form is rendered; [i] is the
    position of a star button. *)
Inductive Event :=
| ClickStar (i : nat)
| MouseEnter (i : nat)
| MouseLeave
| TypeComment (s : string)
| Submit
| Resolve (r : nat)
| Reject (r : nat).

Definition drop (r : nat) (w : World) : World :=
  mkWorld (rating w) (hover w) (comment w) (submitted w)
    (delete r (requests w)) (next w).

Definition on_form (w : World) (k : World * list Action)
  : World * list Action :=
  if submitted w then (w, []) else k.

Definition step (w : World) (e : Event) : World * list Action :=
  match e with
  | ClickStar i =>
      on_form w
        match stars !! i with
        | Some star =>
            (mkWorld star (hover w) (comment w) (submitted w) (requests w)
               (next w), [SetRating star])
        | None => (w, [])
        end
  | MouseEnter i =>
      on_form w
        match stars !! i with
        | Some star =>
            (mkWorld (rating w) star (comment w) (submitted w) (requests w)
               (next w), [SetHover star])
        | None => (w, [])
        end
  | MouseLeave =>
      on_form w
        (mkWorld (rating w) 0 (comment w) (submitted w) (requests w) (next w),
         [SetHover 0])
  | TypeComment s =>
      on_form w
        (mkWorld (rating w) (hover w) s (submitted w) (requests w) (next w),
         [SetComment s])
  | Submit => on_form w (handleSubmit w)
  | Resolve r =>
      match requests w !! r with
      | Some AwaitOnRate => handleSubmit_resolved (drop r w)
      | None => (w, [])
      end
  | Reject r =>
      match requests w !! r with
      | Some AwaitOnRate => (drop r w, [])
      | None => (w, [])
      end
  end.

Fixpoint run (w : World) (es : list Event) : World * list Action :=
  match es with
  | [] => (w, [])
  | e :: es' =>
      let '(w1, l1) := step w e in
      let '(w2, l2) := run w1 es' in (w2, l1 ++ l2)
  end.

Definition mount : World := mkWorld 0 0 EmptyString false ∅ 0.

(** A rating handed to [onRate] is one of the stars. *)
Definition rates_a_star (a : Action) : Prop :=
  match a with
  | CallOnRate rating _ _ => 1 ≤ rating ≤ 5
  | _ => True
  end.

Definition is_onRate (a : Action) : bool :=
  match a with CallOnRate _ _ _ => true | _ => false end.

(** What the widget keeps: the rating is none or a star, every call in
    flight was counted, and the note of thanks needs a call. *)
Definition sound (w : World) (calls : nat) : Prop :=
  rating w ≤ 5
  ∧ (∀ r, is_Some (requests w !! r) → 0 < calls)
  ∧ (submitted w = true → 0 < calls).

Definition onRate_calls (l : list Action) : nat :=
  length (filter (λ a, is_onRate a = true) l).

End RatingWidget.

(** ** The route table

    [frontend/src/App.jsx]: which element each route gives, with and
    without a session.  A location is taken as the route [<Routes>]
    matched it to; [Navigate] elements are followed as the router does,
    by rendering the table again at their target. *)
Module App.

Inductive Route :=
| Root                    (* path="/" *)
| Check                   (* path="/check" *)
| Report (id : string)    (* path="/report/:id" *)
| History                 (* path="/history" *)
| Profile                 (* path="/profile" *)
| CatchAll.               (* path="*" *)

Inductive Page :=
| LandingPage
| CheckReferencePage
| ReportPage (id : string)
| HistoryPage
| ProfilePage.

Inductive Element :=
| Show (p : Page)
| Navigate (to : Route).

(** The [element] props of the table. *)
Definition element (isAuthenticated : bool) (r : Route) : Element :=
  match r with
  | Root => if isAuthenticated then Navigate Check else Show LandingPage
  | Check => if isAuthenticated then Show CheckReferencePage else Navigate Root
  | Report id => if isAuthenticated then Show (ReportPage id) else Navigate Root
  | History => if isAuthenticated then Show HistoryPage else Navigate Root
  | Profile => if isAuthenticated then Show ProfilePage else Navigate Root
  | CatchAll => Navigate (if isAuthenticated then Check else Root)
  end.

(** The table of the earlier App.jsx: the landing page is public and
    everything unknown goes to it. *)
Definition element_v1 (isAuthenticated : bool) (r : Route) : Element :=
  match r with
  | Root => Show LandingPage
  | Check => if isAuthenticated then Show CheckReferencePage else Navigate Root
  | Report id => if isAuthenticated then Show (ReportPage id) else Navigate Root
  | History => if isAuthenticated then Show HistoryPage else Navigate Root
  | Profile => if isAuthenticated then Show ProfilePage else Navigate Root
  | CatchAll => Navigate Root
  end.

(** Rendering at [r], following at most [redirects] redirections. *)
Fixpoint settle (table : bool → Route → Element) (redirects : nat)
    (isAuthenticated : bool) (r : Route) : option Page :=
  match table isAuthenticated r with
  | Show p => Some p
  | Navigate to =>
      match redirects with
      | 0 => None
      | S n => settle table n isAuthenticated to
      end
  end.

Definition page_of (r : Route) : option Page :=
  match r with
  | Root => Some LandingPage
  | Check => Some CheckReferencePage
  | Report id => Some (ReportPage id)
  | History => Some HistoryPage
  | Profile => Some ProfilePage
  | CatchAll => None
  end.

End App.

(** ** The API client

    [frontend/src/services/api.js]: the two interceptors of the axios
    instance and the reference endpoints.  The browser state they touch is
    the local storage and the location. *)
Module api.

Inductive Method := GET | POST | DELETE.

(** The request config, with the fields the code sets or reads. *)
Record Config := {
  method : Method;
  url : string;
  headers : gmap string string
}.

Record Browser := {
  localStorage : gmap string string;
  location_href : string
}.

(** [error.response?.status] of a rejected request. *)
Record AxiosError := { response_status : option nat }.

(** [localStorage.getItem('token')], tested by [if (token)]: a missing
    entry gives null and the empty string is falsy. *)
Definition stored_token (b : Browser) : option string :=
  match localStorage b !! "token"%string with
  | Some token => if bool_decide (token = EmptyString) then None else Some token
  | None => None
  end.

(** The request interceptor. *)
Definition request_interceptor (b : Browser) (config : Config) : Config :=
  match stored_token b with
  | Some token =>
      {| method := method config; url := url config;
         headers := <["Authorization"%string := ("Bearer " +:+ token)%string]>
                      (headers config) |}
  | None => config
  end.

(** The error branch of the response interceptor: what it does to the
    browser; the promise it returns is rejected with the same error. *)
Definition response_error_interceptor (b : Browser) (error : AxiosError)
  : Browser * AxiosError :=
  if bool_decide (response_status error = Some 401)
  then ({| localStorage := delete "user"%string
                             (delete "token"%string (localStorage b));
           location_href := "/" |}, error)
  else (b, error).

End api.

(** ** Proofs *)

Ltac unfold_cmds :=
  unfold step, run_timer, run_resolved, run_rejected, refresher_tick,
    settling_elapsed, interpoll_elapsed, success_clear,
    pollForResults_resolved, pollForResults_rejected, pollForResults,
    after_poll, handleReanalyze, handleReanalyze_resolved,
    handleReanalyze_rejected, handleReanalyze_finally, useEffect,
    useEffect_cleanup, fetchReport, fetchReport_resolved,
    fetchReport_rejected, ifMounted, andThen, skip, setData, setLoading,
    setError, setReanalyzing, setShowSuccessMessage, consoleError,
    setTimeout, setInterval, clearTimeout, clearInterval, await in *.

Ltac map_cases :=
  repeat match goal with
  | H : <[_:=_]> _ !! _ = Some _ |- _ =>
      apply lookup_insert_Some in H; destruct H as [[? ?]|[? H]]
  | H : delete _ _ !! _ = Some _ |- _ =>
      apply lookup_delete_Some in H; destruct H as [? H]
  end.

Ltac explode w e :=
  destruct w; simpl in *; destruct e; unfold_cmds; simpl in *;
  repeat (case_match; simpl in *; simplify_eq; try done).

Ltac absurd_handle :=
  exfalso;
  repeat match goal with
  | H : ∀ t, Some ?n = Some t → _ |- _ => specialize (H _ eq_refl)
  | H : ∀ t k, Some ?n = Some t → _ |- _ => specialize (λ k, H _ k eq_refl)
  end;
  repeat match goal with
  | H : ∀ h k, ?m !! h = Some k → _, H' : ?m !! _ = Some _ |- _ =>
      pose proof (H _ _ H'); clear H
  | H : ∀ h c i, ?m !! h = Some (RefresherTick c i) → _,
    H' : ?m !! _ = Some (RefresherTick _ _) |- _ =>
      pose proof (H _ _ _ H'); clear H
  end;
  intuition (try lia; try congruence).

Ltac cycle_prep :=
  repeat match goal with
  | H : _ && _ = true |- _ => apply andb_true_iff in H; destruct H
  | H : negb _ = true |- _ => clear H
  end; subst;
  repeat match goal with
  | H : ∀ h k, ?a = true → ?b = false → _ |- _ =>
      first [ specialize (λ h k, H h k eq_refl eq_refl) | clear H ]
  end.

Ltac side := first [eassumption | reflexivity].

Ltac cycle_auto :=
  cycle_prep;
  repeat match goal with
  | |- is_cycle_request ?k = false =>
      destruct (is_cycle_request k) eqn:?; [exfalso|done]
  | |- is_cycle_timer ?k = false =>
      destruct (is_cycle_timer k) eqn:?; [exfalso|done]
  end;
  try done; try congruence;
  try (match goal with
       | H : ∀ h k, ?m !! h = Some k → _ = false, H1 : ?m !! ?a = Some ?ka |- _ =>
           pose proof (H a ka H1); simpl in *; congruence
       end; fail);
  try (match goal with
       | H : ∀ h h' k k', ?m !! h = Some k → _ → ?m' !! h' = Some k' → _ → False,
         H1 : ?m !! ?a = Some ?ka, H2 : ?m' !! ?b = Some ?kb |- _ =>
           exfalso; apply (H a b ka kb H1); [side|exact H2|side]
       end; fail);
  try (match goal with
       | H : ∀ h h' k k', ?m !! h = Some k → _ → ?m !! h' = Some k' → _ → h = h',
         H1 : ?m !! ?a = Some ?ka, H2 : ?m !! ?b = Some ?kb |- _ =>
           assert (a = b) by (apply (H a b ka kb H1); [side|exact H2|side]);
           congruence
       end; fail).

(** Reduce field reads of updated worlds, and nothing else. *)
Ltac norm_world :=
  cbn [fst snd with_id with_data with_loading with_error with_reanalyzing
       with_showSuccessMessage with_isMounted with_successTimeoutRef
       with_interval with_timers with_requests with_next
       id data loading error reanalyzing showSuccessMessage isMounted
       successTimeoutRef interval timers requests next] in *.

Section Invariants.

Variable maxAttempts : nat.

Lemma step_unmounted w e :
  isMounted w = false →
  isMounted (step maxAttempts w e).1 = false
  ∧ Forall (λ a, is_mutation a = false) (step maxAttempts w e).2.
Proof.
  intros Hm. destruct w; simpl in *; subst.
  destruct e; unfold_cmds; simpl.
  all: repeat (case_match; simpl in *; subst; try done).
  all: repeat constructor.
Qed.

Lemma handles_fresh_step w e :
  handles_fresh w → handles_fresh (step maxAttempts w e).1.
Proof.
  intros [Ht Hr Hi Hs].
  explode w e.
  all: split; simpl; intros; map_cases; simplify_eq;
    try match goal with
    | H : ∀ h k, ?m !! h = Some k → _, H' : ?m !! _ = Some _ |- _ =>
        specialize (H _ _ H')
    end;
    try match goal with
    | H : ∀ t, Some _ = Some t → _ |- _ => specialize (H _ eq_refl)
    end; try lia.
Qed.

Lemma attempts_bounded_step w e :
  attempts_bounded maxAttempts w →
  attempts_bounded maxAttempts (step maxAttempts w e).1.
Proof.
  intros [Hr Ht].
  explode w e.
  all: split; simpl; intros; map_cases; simplify_eq; eauto; try lia.
  all: repeat match goal with
       | H : bool_decide _ = true |- _ => apply bool_decide_eq_true in H
       | H : _ && _ = true |- _ => apply andb_true_iff in H; destruct H
       end; try lia.
Qed.

Lemma handles_kinds_step w e :
  handles_fresh w → handles_kinds w → handles_kinds (step maxAttempts w e).1.
Proof.
  intros [Ft Fr Fi Fs] [Kr Ki Ks].
  explode w e.
  all: split; simpl; intros; map_cases; simplify_eq; eauto.
  all: absurd_handle.
Qed.

(** The view that [mount] leaves satisfies the invariants. *)
Lemma handles_fresh_mount i : handles_fresh (mount i).1.
Proof.
  split; simpl; intros; map_cases; simplify_eq; try lia;
    rewrite ?lookup_empty in *; done.
Qed.

Lemma handles_kinds_mount i : handles_kinds (mount i).1.
Proof.
  split; simpl; intros; map_cases; simplify_eq; eauto;
    rewrite ?lookup_empty in *; done.
Qed.

Lemma attempts_bounded_mount i : attempts_bounded maxAttempts (mount i).1.
Proof.
  split; simpl; intros; map_cases; simplify_eq;
    rewrite ?lookup_empty in *; done.
Qed.

Lemma run_cons w e es :
  run maxAttempts w (e :: es) =
    ((run maxAttempts (step maxAttempts w e).1 es).1,
     (step maxAttempts w e).2 ++ (run maxAttempts (step maxAttempts w e).1 es).2).
Proof.
  simpl. destruct (step maxAttempts w e) as [w1 l1]; simpl.
  destruct (run maxAttempts w1 es) as [w2 l2]; reflexivity.
Qed.

(** A property kept by every step is kept by every run. *)
Lemma run_preserves (P : World → Prop) :
  (∀ w e, P w → P (step maxAttempts w e).1) →
  ∀ es w, P w → P (run maxAttempts w es).1.
Proof.
  intros Hstep es. induction es as [|e es IH]; intros w Hw; [done|].
  rewrite run_cons. simpl. apply IH, Hstep, Hw.
Qed.

Lemma handles_fresh_after i es : handles_fresh (after maxAttempts i es).
Proof.
  unfold after. apply (run_preserves handles_fresh);
    [apply handles_fresh_step | apply handles_fresh_mount].
Qed.

Lemma handles_kinds_after i es : handles_kinds (after maxAttempts i es).
Proof.
  cut (handles_fresh (after maxAttempts i es) ∧ handles_kinds (after maxAttempts i es));
    [tauto|].
  unfold after.
  apply (run_preserves (λ w, handles_fresh w ∧ handles_kinds w)).
  - intros w e [? ?]; split;
      [by apply handles_fresh_step | by apply handles_kinds_step].
  - split; [apply handles_fresh_mount | apply handles_kinds_mount].
Qed.

Lemma run_unmounted es w :
  isMounted w = false →
  isMounted (run maxAttempts w es).1 = false
  ∧ Forall (λ a, is_mutation a = false) (run maxAttempts w es).2.
Proof.
  revert w. induction es as [|e es IH]; intros w Hm; [by split|].
  rewrite run_cons; simpl.
  destruct (step_unmounted w e Hm) as [Hm1 Hl1].
  destruct (IH _ Hm1) as [Hm2 Hl2].
  split; [done | by apply Forall_app].
Qed.

(** The button is offered only while no cycle is in flight. *)
Lemma can_reanalyze_idle w : can_reanalyze w = true → reanalyzing w = false.
Proof.
  unfold can_reanalyze, render. repeat case_match; try done.
  all: by destruct (reanalyzing w).
Qed.

Lemma one_cycle_step w e :
  one_cycle w → one_cycle (step maxAttempts w e).1.
Proof.
  intros [Urr Utt Urt Ir It].
  destruct e.
  - unfold step. destruct (isMounted w && can_reanalyze w) eqn:E; [|done].
    apply andb_true_iff in E as [Hm Hc].
    pose proof (can_reanalyze_idle w Hc) as Hre.
    specialize (λ h k, Ir h k Hm Hre). specialize (λ h k, It h k Hm Hre).
    destruct w as [wid wdata wload werr wre wshow wm wref wint wt wr wn].
    simpl in *; subst.
    split; simpl; intros; map_cases; simplify_eq; cycle_auto.
  - explode w (Navigate i).
    all: split; simpl; intros; map_cases; simplify_eq; cycle_auto.
  - explode w Unmount.
    all: split; simpl; intros; map_cases; simplify_eq; cycle_auto.
  - explode w (Fire t).
    all: split; simpl; intros; map_cases; simplify_eq; cycle_auto.
  - explode w (Resolve r response).
    all: split; simpl; intros; map_cases; simplify_eq; cycle_auto.
  - explode w (Reject r).
    all: split; simpl; intros; map_cases; simplify_eq; cycle_auto.
Qed.

Lemma one_cycle_mount i : one_cycle (mount i).1.
Proof.
  split; simpl; intros; map_cases; simplify_eq;
    rewrite ?lookup_empty in *; done.
Qed.

(** In every state reached from a mount at most one reanalysis cycle is in
    flight, and none while the mounted view shows [reanalyzing] false. *)
Lemma one_cycle_after i es : one_cycle (after maxAttempts i es).
Proof.
  unfold after. apply (run_preserves one_cycle);
    [apply one_cycle_step | apply one_cycle_mount].
Qed.

(** The phase read off the view agrees with what is parked: on a mounted
    view in phase idle, succeeded or failed, no continuation of a
    reanalysis cycle is waiting for a reply or a timer. *)
Lemma settled_phase_nothing_parked i es :
  let w := after maxAttempts i es in
  isMounted w = true →
  poller_phase w = Idle ∨ poller_phase w = Succeeded ∨ poller_phase w = Failed →
  (∀ h k, requests w !! h = Some k → is_cycle_request k = false)
  ∧ (∀ h k, timers w !! h = Some k → is_cycle_timer k = false).
Proof.
  intros w Hm Hph.
  destruct (one_cycle_after i es) as [_ _ _ Ir It]. fold w in Ir, It.
  assert (reanalyzing w = false) as Hre.
  { unfold poller_phase in Hph. destruct (reanalyzing w); [|done].
    repeat case_match; destruct Hph as [?|[?|?]]; discriminate. }
  split; intros h k Hk; eauto.
Qed.

End Invariants.

(** *** Detaching the view *)

Section Detach.

Variable maxAttempts : nat.


(** The cleanup, as one update of the world. *)
Lemma step_Unmount w :
  isMounted w = true →
  step maxAttempts w Unmount =
    (with_timers
       (match successTimeoutRef w with
        | Some t => delete t (delete (interval w) (timers w))
        | None => delete (interval w) (timers w)
        end) (with_isMounted false w),
     ClearInterval (interval w) ::
       match successTimeoutRef w with
       | Some t => [ClearTimeout t]
       | None => []
       end).
Proof.
  intros Hm. destruct w as [? ? ? ? ? ? ? wref ? ? ? ?]; simpl in *; subst.
  unfold_cmds; simpl. by destruct wref.
Qed.

(** C1 (as amended): when a mounted view is detached, at whatever point of
    a reanalysis cycle, no state setter is called from the cleanup on, for
    every later sequence of events; the cleanup releases the refresher
    interval and the timeout held in [successTimeoutRef]; the settling and
    inter-poll timers are not released, they stay scheduled. *)
Theorem detach_silences_setters_keeps_poll_timers i es :
  let w := after maxAttempts i es in
  isMounted w = true →
  (∀ es', Forall (λ a, is_mutation a = false)
            (run maxAttempts w (Unmount :: es')).2)
  ∧ (∀ t k, timers (step maxAttempts w Unmount).1 !! t = Some k →
            is_refresher k = false)
  ∧ (∀ t, successTimeoutRef w = Some t →
          timers (step maxAttempts w Unmount).1 !! t = None)
  ∧ (∀ t k, timers w !! t = Some k →
            is_settle k || is_poll_delay k = true →
            timers (step maxAttempts w Unmount).1 !! t = Some k).
Proof.
  intros w Hm.
  pose proof (handles_kinds_after maxAttempts i es) as [Kr Ki Ks].
  fold w in Kr, Ki, Ks. clearbody w.
  split; [|rewrite (step_Unmount w Hm); simpl; split; [|split]].
  - intros es'. rewrite run_cons, (step_Unmount w Hm). simpl.
    constructor; [done|]. apply Forall_app; split.
    + destruct (successTimeoutRef w); repeat constructor.
    + by apply run_unmounted.
  - intros t k Hk. destruct k; try done.
    assert (timers w !! t = Some (RefresherTick captured cid)
            ∧ t ≠ interval w) as [Hk' Hne].
    { destruct (successTimeoutRef w); map_cases; done. }
    apply Kr in Hk'. tauto.
  - intros t ->. apply lookup_delete_eq.
  - intros t k Hk Hkind.
    assert (t ≠ interval w).
    { intros ->. apply Ki in Hk. by destruct k. }
    destruct (successTimeoutRef w) as [n|] eqn:Hn.
    + assert (t ≠ n).
      { intros ->. specialize (Ks _ _ eq_refl Hk). by subst k. }
      by rewrite !lookup_delete_ne.
    + by rewrite lookup_delete_ne.
Qed.

End Detach.

(** *** The transitions of a reanalysis cycle *)

Section Cycle.

Variable maxAttempts : nat.

Lemma step_Click w :
  isMounted w = true → can_reanalyze w = true →
  step maxAttempts w Click =
    (with_next (S (next w))
       (with_requests (<[next w := AwaitReanalyze (id w)]> (requests w))
          (with_showSuccessMessage false
             (with_error EmptyString (with_reanalyzing true w)))),
     [SetReanalyzing true; SetError EmptyString; SetShowSuccessMessage false;
      CallReanalyze (id w) (next w)]).
Proof.
  intros Hm Hc. unfold step. rewrite Hm, Hc. reflexivity.
Qed.

Lemma step_Resolve_trigger w r cid reply :
  requests w !! r = Some (AwaitReanalyze cid) →
  step maxAttempts w (Resolve r reply) =
    (with_next (S (next w))
       (with_timers (<[next w := SettleDelay cid]> (timers w))
          (with_requests (delete r (requests w)) w)),
     [SetTimeout (next w) 2000]).
Proof.
  intros Hr. unfold step. rewrite Hr. reflexivity.
Qed.

Lemma step_Fire_settle w t cid :
  timers w !! t = Some (SettleDelay cid) →
  step maxAttempts w (Fire t) =
    (with_next (S (next w))
       (with_requests (<[next w := AwaitPoll cid 0]> (requests w))
          (with_timers (delete t (timers w)) w)),
     [CallGetReference cid (next w)]).
Proof.
  intros Ht. unfold step. rewrite Ht. reflexivity.
Qed.

Lemma step_Resolve_poll_again w r cid a d :
  requests w !! r = Some (AwaitPoll cid a) →
  status (reference d) = processing → a < maxAttempts →
  step maxAttempts w (Resolve r d) =
    (with_next (S (next w))
       (with_timers (<[next w := PollDelay cid (S a)]> (timers w))
          (with_requests (delete r (requests w)) w)),
     [SetTimeout (next w) 1000]).
Proof.
  intros Hr Hs Ha. unfold step. rewrite Hr. simpl.
  unfold pollForResults_resolved.
  rewrite (bool_decide_eq_true_2 _ Hs), (bool_decide_eq_true_2 _ Ha).
  reflexivity.
Qed.

Lemma step_Fire_poll_delay w t cid a :
  timers w !! t = Some (PollDelay cid a) →
  step maxAttempts w (Fire t) =
    (with_next (S (next w))
       (with_requests (<[next w := AwaitPoll cid a]> (requests w))
          (with_timers (delete t (timers w)) w)),
     [CallGetReference cid (next w)]).
Proof.
  intros Ht. unfold step. rewrite Ht. reflexivity.
Qed.

(** The loop stops: the record is stored, the success notification is set
    with its auto-clear timer, [reanalyzing] is reset. *)
Lemma step_Resolve_poll_stop w r cid a d :
  requests w !! r = Some (AwaitPoll cid a) →
  status (reference d) ≠ processing ∨ ¬ a < maxAttempts →
  isMounted w = true →
  step maxAttempts w (Resolve r d) =
    (with_reanalyzing false
       (with_successTimeoutRef (Some (next w))
          (with_next (S (next w))
             (with_timers (<[next w := SuccessClear]> (timers w))
                (with_showSuccessMessage true
                   (with_data (Some d)
                      (with_requests (delete r (requests w)) w)))))),
     [SetData d; SetShowSuccessMessage true; SetTimeout (next w) 3000;
      SetReanalyzing false]).
Proof.
  intros Hr Hstop Hm. unfold step. rewrite Hr. simpl.
  unfold pollForResults_resolved.
  assert (bool_decide (status (reference d) = processing)
          && bool_decide (a < maxAttempts) = false) as ->.
  { apply andb_false_iff. destruct Hstop as [H|H];
      [left|right]; by apply bool_decide_eq_false_2. }
  destruct w; simpl in *; subst. reflexivity.
Qed.

(** A rejected poll fetch: logged, the error is set, and the function
    returns, so the cycle goes on to its success block. *)
Lemma step_Reject_poll w r cid a :
  requests w !! r = Some (AwaitPoll cid a) →
  isMounted w = true →
  step maxAttempts w (Reject r) =
    (with_reanalyzing false
       (with_successTimeoutRef (Some (next w))
          (with_next (S (next w))
             (with_timers (<[next w := SuccessClear]> (timers w))
                (with_showSuccessMessage true
                   (with_error msg_poll_failed
                      (with_requests (delete r (requests w)) w)))))),
     [ConsoleError "Polling error:"; SetError msg_poll_failed;
      SetShowSuccessMessage true; SetTimeout (next w) 3000;
      SetReanalyzing false]).
Proof.
  intros Hr Hm. unfold step. rewrite Hr. simpl.
  destruct w; simpl in *; subst. reflexivity.
Qed.

Lemma step_Reject_trigger w r cid :
  requests w !! r = Some (AwaitReanalyze cid) →
  isMounted w = true →
  step maxAttempts w (Reject r) =
    (with_reanalyzing false
       (with_error msg_reanalyze_failed
          (with_requests (delete r (requests w)) w)),
     [SetError msg_reanalyze_failed; ConsoleError "Reanalyze error:";
      SetReanalyzing false]).
Proof.
  intros Hr Hm. unfold step. rewrite Hr. simpl.
  destruct w; simpl in *; subst. reflexivity.
Qed.

Lemma poll_events_more h res rest :
  rest ≠ [] →
  poll_events h (res :: rest) =
    (match res with Some d => Resolve h d | None => Reject h end)
      :: Fire (S h) :: poll_events (S (S h)) rest.
Proof. intros Hne. simpl. by destruct rest. Qed.

Lemma fresh_lookup_timers w h :
  handles_fresh w → next w ≤ h → timers w !! h = None.
Proof.
  intros [Ft _ _ _] Hh. destruct (timers w !! h) eqn:E; [|done].
  apply Ft in E. lia.
Qed.

Lemma fresh_lookup_requests w h :
  handles_fresh w → next w ≤ h → requests w !! h = None.
Proof.
  intros [_ Fr _ _] Hh. destruct (requests w !! h) eqn:E; [|done].
  apply Fr in E. lia.
Qed.

(** While the fetched status is [processing] and the budget is not used
    up, each result takes the loop once round: an inter-poll timer, then
    the next fetch with [attempts] one higher.  Timers and view are as
    before; only the parked request moved on. *)
Local Arguments Nat.mul : simpl never.

Lemma run_poll_rounds ds : ∀ w h cid a rest,
  handles_fresh w → next w = S h →
  requests w !! h = Some (AwaitPoll cid a) →
  Forall (λ d, status (reference d) = processing) ds →
  a + length ds ≤ maxAttempts →
  rest ≠ [] →
  let h' := h + 2 * length ds in
  let w' :=
    with_next (S h')
      (with_requests
         (<[h' := AwaitPoll cid (a + length ds)]> (delete h (requests w))) w) in
  run maxAttempts w (poll_events h ((Some <$> ds) ++ rest)) =
    ((run maxAttempts w' (poll_events h' rest)).1,
     poll_rounds cid h (length ds)
       ++ (run maxAttempts w' (poll_events h' rest)).2).
Proof.
  induction ds as [|d ds IH]; intros w h cid a rest Hf Hn Hr Hds Ha Hrest;
    cbv zeta.
  - simpl. rewrite Nat.mul_0_r, !Nat.add_0_r.
    assert (with_next (S h)
              (with_requests (<[h := AwaitPoll cid a]>
                 (delete h (requests w))) w) = w) as ->.
    { rewrite insert_delete_eq, (insert_id _ _ _ Hr), <- Hn. by destruct w. }
    by destruct (run maxAttempts w (poll_events h rest)).
  - apply Forall_cons in Hds as [Hd Hds]. simpl in Ha.
    assert ((Some <$> ds) ++ rest ≠ []) as Hne.
    { destruct ds; [done | discriminate]. }
    rewrite fmap_cons, <- app_comm_cons, (poll_events_more _ _ _ Hne), !run_cons.
    pose proof (handles_fresh_step maxAttempts _ (Fire (S h))
                  (handles_fresh_step maxAttempts w (Resolve h d) Hf)) as Hf2.
    rewrite (step_Resolve_poll_again w h cid a d Hr Hd) in Hf2 |- * by lia.
    cbn [fst snd] in Hf2 |- *.
    erewrite step_Fire_poll_delay in Hf2 |- *
      by (simpl; rewrite Hn; apply lookup_insert_eq).
    cbn [fst snd] in Hf2 |- *.
    pose proof (fresh_lookup_timers w (S h) Hf ltac:(lia)) as Ht1.
    pose proof (fresh_lookup_requests w (S (S h)) Hf ltac:(lia)) as Hr2.
    rewrite Hn in Hf2 |- *.
    rewrite (IH _ (S (S h)) cid (S a) rest); try done.
    + cbn [fst snd].
      replace (S (S h) + 2 * length ds) with (h + 2 * length (d :: ds))
        by (simpl; lia).
      replace (S a + length ds) with (a + length (d :: ds)) by (simpl; lia).
      match goal with
      | |- ((run _ ?w1 _).1, _) = ((run _ ?w2 _).1, _) =>
          assert (w1 = w2) as ->; [|reflexivity]
      end.
      destruct w; simpl in *.
      rewrite delete_insert_id by (by rewrite lookup_delete_ne by lia).
      by rewrite (delete_insert_id _ _ _ Ht1).
    + simpl. apply lookup_insert_eq.
    + simpl. lia.
Qed.

Lemma fetch_calls_app l1 l2 :
  fetch_calls (l1 ++ l2) = fetch_calls l1 + fetch_calls l2.
Proof. unfold fetch_calls. by rewrite filter_app, length_app. Qed.

Lemma fetch_calls_poll_rounds cid h n :
  fetch_calls (poll_rounds cid h n) = n.
Proof.
  revert h. induction n as [|n IH]; intros h; [done|].
  simpl. change (S (fetch_calls (poll_rounds cid (S (S h)) n)) = S n).
  by rewrite IH.
Qed.

(** One whole cycle on a mounted view: [length ds] fetches return
    [processing] within the budget, then the fetch returning [d] ends the
    loop, because [d] is not [processing] or because the budget is used up. *)
Lemma run_cycle w reply ds d :
  handles_fresh w → isMounted w = true → can_reanalyze w = true →
  Forall (λ d, status (reference d) = processing) ds →
  length ds ≤ maxAttempts →
  status (reference d) ≠ processing ∨ length ds = maxAttempts →
  let h := next w in
  let s := S (S (S h)) + 2 * length ds in
  run maxAttempts w (cycle_events h reply (Some <$> (ds ++ [d]))) =
    (with_reanalyzing false
       (with_successTimeoutRef (Some s)
          (with_next (S s)
             (with_timers (<[s := SuccessClear]> (timers w))
                (with_showSuccessMessage true
                   (with_data (Some d) (with_error EmptyString w)))))),
     [SetReanalyzing true; SetError EmptyString; SetShowSuccessMessage false;
      CallReanalyze (id w) h; SetTimeout (S h) 2000;
      CallGetReference (id w) (S (S h))]
       ++ poll_rounds (id w) (S (S h)) (length ds)
       ++ [SetData d; SetShowSuccessMessage true; SetTimeout s 3000;
           SetReanalyzing false]).
Proof.
  intros Hf Hm Hc Hds Hlen Hstop h s. subst h s. unfold cycle_events.
  pose proof (handles_fresh_step maxAttempts _ (Fire (S (next w)))
    (handles_fresh_step maxAttempts _ (Resolve (next w) reply)
      (handles_fresh_step maxAttempts w Click Hf))) as Hf3.
  pose proof (fresh_lookup_timers w (S (next w)) Hf ltac:(lia)) as Ht1.
  pose proof (fresh_lookup_requests w (next w) Hf ltac:(lia)) as Hr0.
  pose proof (fresh_lookup_requests w (S (S (next w))) Hf ltac:(lia)) as Hr2.
  pose proof (fresh_lookup_requests w (S (S (next w)) + 2 * length ds) Hf
                ltac:(lia)) as Hr3.
  rewrite !run_cons.
  rewrite (step_Click w Hm Hc) in Hf3 |- *.
  destruct w as [wid wdata wload werr wre wshow wm wref wint wt wr wn].
  norm_world.
  erewrite step_Resolve_trigger in Hf3 |- * by (norm_world; apply lookup_insert_eq).
  norm_world.
  erewrite step_Fire_settle in Hf3 |- * by (norm_world; apply lookup_insert_eq).
  norm_world.
  rewrite fmap_app. change (Some <$> [d]) with [Some d].
  rewrite (run_poll_rounds ds _ (S (S wn)) wid 0 [Some d] Hf3);
    [| reflexivity | norm_world; apply lookup_insert_eq | done
     | simpl; lia | done].
  norm_world. cbn [poll_events list_fmap fmap]. rewrite run_cons. cbn [run].
  norm_world.
  erewrite step_Resolve_poll_stop;
    [| norm_world; apply lookup_insert_eq
     | destruct Hstop; [by left|right; lia]
     | norm_world; exact Hm].
  norm_world. f_equal.
  by rewrite (delete_insert_id _ _ _ Hr0), (delete_insert_id _ _ _ Hr2),
    (delete_insert_id _ _ _ Hr3), (delete_insert_id _ _ _ Ht1).
Qed.

(** A terminal record ends the loop in whatever state it arrives, mounted
    or not: nothing is fetched and nothing of the loop is parked again. *)
Lemma step_Resolve_poll_terminal w r cid a d :
  requests w !! r = Some (AwaitPoll cid a) →
  status (reference d) ≠ processing →
  let s := step maxAttempts w (Resolve r d) in
  fetch_calls s.2 = 0
  ∧ requests s.1 = delete r (requests w)
  ∧ (∀ t k, timers s.1 !! t = Some k → is_poll_delay k = true →
            timers w !! t = Some k)
  ∧ (isMounted w = true → data s.1 = Some d).
Proof.
  intros Hr Hd s. subst s. unfold step. rewrite Hr. simpl.
  unfold pollForResults_resolved.
  rewrite (bool_decide_eq_false_2 _ Hd). simpl.
  destruct w as [wid wdata wload werr wre wshow wm wref wint wt wr wn].
  destruct wm; unfold_cmds; simpl; repeat split; try done.
  intros t k Hk Hpd. map_cases; [by subst k | done].
Qed.

(** A rejected trigger ends the cycle in whatever state it arrives. *)
Lemma step_Reject_trigger_any w r cid :
  requests w !! r = Some (AwaitReanalyze cid) →
  let s := step maxAttempts w (Reject r) in
  fetch_calls s.2 = 0
  ∧ requests s.1 = delete r (requests w)
  ∧ timers s.1 = timers w.
Proof.
  intros Hr s. subst s. unfold step. rewrite Hr. simpl.
  destruct w as [wid wdata wload werr wre wshow wm wref wint wt wr wn].
  by destruct wm.
Qed.

(** C2 (as amended): with [maxAttempts = N], when every fetch returns
    [processing] the loop makes exactly [N + 1] calls to getReference, the
    first after the settling delay and each later one after one inter-poll
    delay of 1000 ms; it then stores the last record, shows the success
    notification and resets [reanalyzing], with the error left empty.  The
    cycle ends as any completed one: the stored record still reading
    [processing] is all that tells the outcome apart. *)
Theorem exhausted_budget_fetches_once_more i es reply ds d :
  let w := after maxAttempts i es in
  isMounted w = true → can_reanalyze w = true →
  length ds = maxAttempts →
  Forall (λ d, status (reference d) = processing) (ds ++ [d]) →
  let h := next w in
  let r := run maxAttempts w (cycle_events h reply (Some <$> (ds ++ [d]))) in
  r.2 = [SetReanalyzing true; SetError EmptyString; SetShowSuccessMessage false;
         CallReanalyze (id w) h; SetTimeout (S h) 2000;
         CallGetReference (id w) (S (S h))]
          ++ poll_rounds (id w) (S (S h)) maxAttempts
          ++ [SetData d; SetShowSuccessMessage true;
              SetTimeout (S (S (S h)) + 2 * maxAttempts) 3000;
              SetReanalyzing false]
  ∧ fetch_calls r.2 = S maxAttempts
  ∧ poller_phase r.1 = Succeeded
  ∧ data r.1 = Some d
  ∧ error r.1 = EmptyString
  ∧ requests r.1 = requests w.
Proof.
  intros w Hm Hc Hlen Hall h r.
  apply Forall_app in Hall as [Hds Hd].
  subst r h. rewrite (run_cycle w reply ds d); try done.
  - rewrite Hlen. cbn [fst snd]. split; [done|]. split.
    + rewrite !fetch_calls_app, fetch_calls_poll_rounds.
      unfold fetch_calls; simpl. lia.
    + by destruct w.
  - apply handles_fresh_after.
  - lia.
  - by right.
Qed.

(** C6: when the [k]-th fetch of the loop, [k <= maxAttempts], is the first
    whose record is [completed] or [failed], the cycle makes exactly [k]
    calls to getReference; the reply to the [k]-th stores that record and
    ends the cycle with the success notification, and parks nothing: the
    requests in flight are those from before the click and the only new
    timer is the auto-clear of the notification.  More generally, in any
    state in which a fetch of the loop is in flight, such a reply issues no
    fetch and parks no continuation of the loop, and the record is stored
    if the view is mounted. *)
Theorem terminal_status_stops_the_loop i es reply ds d k :
  let w := after maxAttempts i es in
  isMounted w = true → can_reanalyze w = true →
  k = S (length ds) → k ≤ maxAttempts →
  Forall (λ d, status (reference d) = processing) ds →
  status (reference d) = completed ∨ status (reference d) = failed →
  let h := next w in
  let r := run maxAttempts w (cycle_events h reply (Some <$> (ds ++ [d]))) in
  fetch_calls r.2 = k
  ∧ r.2 = [SetReanalyzing true; SetError EmptyString;
           SetShowSuccessMessage false;
           CallReanalyze (id w) h; SetTimeout (S h) 2000;
           CallGetReference (id w) (S (S h))]
            ++ poll_rounds (id w) (S (S h)) (k - 1)
            ++ [SetData d; SetShowSuccessMessage true;
                SetTimeout (S (S h) + 2 * k - 1) 3000;
                SetReanalyzing false]
  ∧ data r.1 = Some d
  ∧ poller_phase r.1 = Succeeded
  ∧ requests r.1 = requests w
  ∧ timers r.1 = <[S (S h) + 2 * k - 1 := SuccessClear]> (timers w)
  ∧ (∀ w' r' cid a,
       requests w' !! r' = Some (AwaitPoll cid a) →
       let s := step maxAttempts w' (Resolve r' d) in
       fetch_calls s.2 = 0
       ∧ requests s.1 = delete r' (requests w')
       ∧ (∀ t k', timers s.1 !! t = Some k' → is_poll_delay k' = true →
                  timers w' !! t = Some k')
       ∧ (isMounted w' = true → data s.1 = Some d)).
Proof.
  intros w Hm Hc Hk Hle Hds Hd h r.
  assert (status (reference d) ≠ processing) as Hterm
    by (destruct Hd as [-> | ->]; discriminate).
  pose proof (handles_fresh_after maxAttempts i es) as Hf. fold w in Hf.
  clearbody w.
  subst r h. rewrite (run_cycle w reply ds d); try done.
  - replace (k - 1) with (length ds) by lia.
    replace (S (S (next w)) + 2 * k - 1)
      with (S (S (S (next w))) + 2 * length ds) by lia.
    cbn [fst snd]. split; [|split; [done|]].
    + rewrite !fetch_calls_app, fetch_calls_poll_rounds.
      unfold fetch_calls; simpl. lia.
    + split; [by destruct w|]. split; [by destruct w|].
      split; [by destruct w|]. split; [by destruct w|].
      intros w' r' cid a Hr'.
      by apply (step_Resolve_poll_terminal w' r' cid a d).
  - lia.
  - by left.
Qed.

(** The click followed by the rejection of the trigger. *)
Lemma run_trigger_failure w :
  handles_fresh w → isMounted w = true → can_reanalyze w = true →
  run maxAttempts w [Click; Reject (next w)] =
    (with_next (S (next w))
       (with_reanalyzing false
          (with_showSuccessMessage false (with_error msg_reanalyze_failed w))),
     [SetReanalyzing true; SetError EmptyString; SetShowSuccessMessage false;
      CallReanalyze (id w) (next w);
      SetError msg_reanalyze_failed; ConsoleError "Reanalyze error:";
      SetReanalyzing false]).
Proof.
  intros Hf Hm Hc.
  pose proof (fresh_lookup_requests w (next w) Hf ltac:(lia)) as Hr0.
  rewrite !run_cons. rewrite (step_Click w Hm Hc).
  destruct w as [wid wdata wload werr wre wshow wm wref wint wt wr wn].
  norm_world.
  erewrite step_Reject_trigger;
    [| norm_world; apply lookup_insert_eq | norm_world; exact Hm].
  cbn [run]. norm_world.
  by rewrite (delete_insert_id _ _ _ Hr0).
Qed.

(** C7: when the trigger call is rejected, the cycle calls getReference
    not once; no settling timer and no poll request is created; the error
    is set to the trigger-failure message and the cycle ends as failed.
    More generally, in any state in which a trigger is in flight, its
    rejection issues no fetch, schedules no timer and parks nothing. *)
Theorem trigger_failure_makes_no_fetch i es :
  let w := after maxAttempts i es in
  isMounted w = true → can_reanalyze w = true →
  let h := next w in
  let r := run maxAttempts w [Click; Reject h] in
  r.2 = [SetReanalyzing true; SetError EmptyString; SetShowSuccessMessage false;
         CallReanalyze (id w) h;
         SetError msg_reanalyze_failed; ConsoleError "Reanalyze error:";
         SetReanalyzing false]
  ∧ fetch_calls r.2 = 0
  ∧ poller_phase r.1 = Failed
  ∧ error r.1 = msg_reanalyze_failed
  ∧ requests r.1 = requests w
  ∧ timers r.1 = timers w
  ∧ (∀ w' r' cid,
       requests w' !! r' = Some (AwaitReanalyze cid) →
       let s := step maxAttempts w' (Reject r') in
       fetch_calls s.2 = 0
       ∧ requests s.1 = delete r' (requests w')
       ∧ timers s.1 = timers w').
Proof.
  intros w Hm Hc h r. subst r h.
  rewrite (run_trigger_failure w (handles_fresh_after maxAttempts i es) Hm Hc).
  clearbody w. cbn [fst snd].
  split; [done|]. split; [done|].
  split; [by destruct w|]. split; [by destruct w|].
  split; [by destruct w|]. split; [by destruct w|].
  intros w' r' cid Hr'. by apply (step_Reject_trigger_any w' r' cid).
Qed.

End Cycle.

(** *** Fetch errors *)

Section Errors.

Variable maxAttempts : nat.

(** C3 (as amended): a fetch error during polling ends the loop.  The
    error is logged first; no further fetch is issued and no inter-poll
    timer is scheduled, whatever is left of the budget; nothing of the loop
    stays parked; and on a mounted view the error slot is set to the
    polling message. *)
Theorem poll_error_ends_the_loop w r cid a :
  requests w !! r = Some (AwaitPoll cid a) →
  let s := step maxAttempts w (Reject r) in
  head s.2 = Some (ConsoleError "Polling error:")
  ∧ fetch_calls s.2 = 0
  ∧ requests s.1 = delete r (requests w)
  ∧ (∀ t k, timers s.1 !! t = Some k → is_poll_delay k = true →
            timers w !! t = Some k)
  ∧ (isMounted w = true →
     error s.1 = msg_poll_failed ∧ SetError msg_poll_failed ∈ s.2).
Proof.
  intros Hr s. subst s. unfold step. rewrite Hr.
  destruct w as [wid wdata wload werr wre wshow wm wref wint wt wr wn].
  destruct wm; unfold_cmds; simpl.
  - repeat split; try done.
    + intros t k Hk Hpd. map_cases; [by subst k | done].
    + set_solver.
  - repeat split; done.
Qed.

(** C9: a rejected fetch, in the poll loop or in fetchReport, leaves the
    cached record as it was and calls setData not once; the catch branch
    of fetchReport sets the error slot and the loading flag only. *)
Theorem fetch_error_leaves_data w r k :
  requests w !! r = Some k →
  (k = AwaitFetchReport ∨ ∃ cid a, k = AwaitPoll cid a) →
  let s := step maxAttempts w (Reject r) in
  data s.1 = data w
  ∧ Forall (λ a, is_setData a = false) s.2
  ∧ (k = AwaitFetchReport →
     s.2 = if isMounted w
           then [SetError msg_load_failed; SetLoading false] else []).
Proof.
  intros Hr Hk s. subst s. unfold step. rewrite Hr.
  destruct w as [wid wdata wload werr wre wshow wm wref wint wt wr wn].
  destruct Hk as [-> | (cid & a & ->)]; destruct wm; unfold_cmds; simpl;
    repeat split; try done; repeat constructor.
Qed.

End Errors.

(** *** The attempt counter *)

(** C8: in every state reached from a mount, under any sequence of events,
    the attempt counter of the poll loop, wherever a continuation of the
    loop holds it, is at most [maxAttempts]. *)
Theorem attempts_never_exceed_maxAttempts maxAttempts i es :
  attempts_bounded maxAttempts (after maxAttempts i es).
Proof.
  unfold after. apply (run_preserves maxAttempts (attempts_bounded maxAttempts)).
  - apply attempts_bounded_step.
  - apply attempts_bounded_mount.
Qed.

(** *** The background refresher *)

Section Refresher.

Variable maxAttempts : nat.

(** A tick: the guard is evaluated on the captured record. *)
Lemma step_Fire_refresher w t c cid :
  timers w !! t = Some (RefresherTick c cid) →
  step maxAttempts w (Fire t) =
    if is_processing c then fetchReport cid w else (w, []).
Proof.
  intros Ht. unfold step. rewrite Ht. simpl. unfold refresher_tick.
  by destruct (is_processing c).
Qed.

Lemma captured_null_mount i : captured_null (mount i).1.
Proof.
  intros t c cid. simpl. intros H.
  map_cases; simplify_eq; rewrite ?lookup_empty in *; done.
Qed.

Lemma captured_null_step w e :
  no_navigation e = true → captured_null w →
  captured_null (step maxAttempts w e).1.
Proof.
  intros Hn Hc. unfold captured_null in *.
  explode w e.
  all: intros; simpl in *; map_cases; simplify_eq; eauto.
Qed.

Lemma captured_null_run es : ∀ w,
  forallb no_navigation es = true → captured_null w →
  captured_null (run maxAttempts w es).1.
Proof.
  induction es as [|e es IH]; intros w Hes Hc; [done|].
  simpl in Hes. apply andb_true_iff in Hes as [He Hes].
  rewrite run_cons. simpl. by apply IH, captured_null_step.
Qed.

Lemma refresher_fetches_null es : ∀ w,
  forallb no_navigation es = true → captured_null w →
  refresher_fetches maxAttempts w es = 0.
Proof.
  induction es as [|e es IH]; intros w Hes Hc; [done|].
  simpl in Hes. apply andb_true_iff in Hes as [He Hes].
  simpl. rewrite (IH _ Hes (captured_null_step w e He Hc)).
  destruct e as [| | |t| |]; try done.
  destruct (timers w !! t) as [[c cid| | |]|] eqn:Ht; try done.
  rewrite (step_Fire_refresher w t c cid Ht), (Hc _ _ _ Ht). done.
Qed.

(** C10: on a mount the interval callback holds the [data] of the render
    in which the effect ran, which is null; as long as the route parameter
    does not change, every tick finds its guard false and does nothing, so
    the refresher issues no fetch call at all. *)
Theorem mount_refresher_never_fetches i es :
  forallb no_navigation es = true →
  (∀ t c cid,
     timers (after maxAttempts i es) !! t = Some (RefresherTick c cid) →
     c = None
     ∧ step maxAttempts (after maxAttempts i es) (Fire t)
       = (after maxAttempts i es, []))
  ∧ refresher_fetches maxAttempts (mount i).1 es = 0.
Proof.
  intros Hes. split.
  - intros t c cid Ht.
    pose proof (captured_null_run es _ Hes (captured_null_mount i)) as Hc.
    assert (c = None) as -> by apply (Hc _ _ _ Ht).
    split; [done|]. by rewrite (step_Fire_refresher _ t None cid Ht).
  - apply refresher_fetches_null; [done | apply captured_null_mount].
Qed.

(** C4 (as amended): in a view whose route parameter has not changed since
    the mount, a tick of the refresher issues no fetch call while the
    poller's phase is other than idle.  The guard of the tick does not read
    the phase: in any state a tick fetches exactly when the record its
    closure captured is [processing]. *)
Theorem refresher_silent_while_poller_busy i es t c cid :
  forallb no_navigation es = true →
  let w := after maxAttempts i es in
  timers w !! t = Some (RefresherTick c cid) →
  poller_phase w ≠ Idle →
  fetch_calls (step maxAttempts w (Fire t)).2 = 0
  ∧ (∀ w' t' c' cid',
       timers w' !! t' = Some (RefresherTick c' cid') →
       fetch_calls (step maxAttempts w' (Fire t')).2
       = if is_processing c' then 1 else 0).
Proof.
  intros Hes w Ht _. split.
  - pose proof (captured_null_run es _ Hes (captured_null_mount i)) as Hc.
    rewrite (step_Fire_refresher w t c cid Ht), (Hc _ _ _ Ht). done.
  - intros w' t' c' cid' Ht'. rewrite (step_Fire_refresher w' t' c' cid' Ht').
    by destruct (is_processing c').
Qed.

End Refresher.

(** *** Concrete runs

    The theorems above at the constant of the source,
    [maxAttempts = 15], on a view of reference 7; and the runs on which
    statements of the specification fail. *)

Lemma detach_witness :
  isMounted (after maxAttempts_src 7 in_settling) = true
  ∧ ∀ es', Forall (λ a, is_mutation a = false)
             (run maxAttempts_src (after maxAttempts_src 7 in_settling) (Unmount :: es')).2.
Proof.
  split; [reflexivity|].
  exact (proj1 (detach_silences_setters_keeps_poll_timers maxAttempts_src 7 in_settling
                  eq_refl)).
Defined.

(** C1, as stated, fails: detached while settling, the view keeps the
    settling timer scheduled; when it fires the loop fetches and schedules
    an inter-poll timer, all after the detach. *)
Lemma detach_while_settling_keeps_timer :
  poller_phase (after maxAttempts_src 7 in_settling) = Settling
  ∧ timers (step maxAttempts_src (after maxAttempts_src 7 in_settling) Unmount).1 !! 3
    = Some (SettleDelay 7)
  ∧ (run maxAttempts_src (after maxAttempts_src 7 in_settling)
       [Unmount; Fire 3; Resolve 4 (sample 7 processing)]).2
    = [ClearInterval 1; CallGetReference 7 4; SetTimeout 5 1000].
Proof. vm_compute. done. Qed.

Lemma exhausted_budget_witness :
  isMounted (after maxAttempts_src 7 loaded) = true
  ∧ can_reanalyze (after maxAttempts_src 7 loaded) = true
  ∧ fetch_calls
      (run maxAttempts_src (after maxAttempts_src 7 loaded)
         (cycle_events 2 (sample 7 completed)
            (Some <$> (replicate 15 (sample 7 processing)
                         ++ [sample 7 processing])))).2 = 16.
Proof.
  split; [reflexivity|]. split; [reflexivity|].
  refine (proj1 (proj2 (exhausted_budget_fetches_once_more maxAttempts_src 7 loaded
                          (sample 7 completed)
                          (replicate 15 (sample 7 processing))
                          (sample 7 processing) eq_refl eq_refl eq_refl _))).
  repeat constructor.
Defined.

(** C2, as stated, fails for [maxAttempts = 15]: after 15 fetches that all
    returned [processing] the loop is still polling, and it takes a 16th
    fetch to end the cycle. *)
Lemma fifteen_processing_fetches_do_not_end_the_loop :
  (let r := run maxAttempts_src (after maxAttempts_src 7 loaded)
              (cycle_events 2 (sample 7 completed)
                 (replicate 15 (Some (sample 7 processing)))) in
   fetch_calls r.2 = maxAttempts_src ∧ poller_phase r.1 = Polling
   ∧ timers r.1 !! 33 = Some (PollDelay 7 15))
  ∧ (let r := run maxAttempts_src (after maxAttempts_src 7 loaded)
                (cycle_events 2 (sample 7 completed)
                   (replicate 16 (Some (sample 7 processing)))) in
     fetch_calls r.2 = S maxAttempts_src ∧ poller_phase r.1 = Succeeded).
Proof. vm_compute. done. Qed.

Lemma poll_error_witness :
  requests (after maxAttempts_src 7 in_polling) !! 4 = Some (AwaitPoll 7 0)
  ∧ fetch_calls (step maxAttempts_src (after maxAttempts_src 7 in_polling) (Reject 4)).2 = 0.
Proof.
  split; [reflexivity|].
  exact (proj1 (proj2 (poll_error_ends_the_loop maxAttempts_src (after maxAttempts_src 7 in_polling)
                         4 7 0 eq_refl))).
Defined.

(** C3, as stated, fails: the first poll fetch is rejected with the whole
    budget left; the error is put in the error slot, and nothing of the
    loop is left to run. *)
Lemma first_poll_error_stops_polling :
  let r := run maxAttempts_src (after maxAttempts_src 7 loaded)
             (cycle_events 2 (sample 7 completed) [None]) in
  fetch_calls r.2 = 1
  ∧ error r.1 = msg_poll_failed
  ∧ requests r.1 = ∅
  ∧ any_pending is_poll_delay (timers r.1) = false
  ∧ reanalyzing r.1 = false.
Proof. vm_compute. done. Qed.

Lemma refresher_silent_witness :
  timers (after maxAttempts_src 7 (loaded ++ [Click])) !! 1 = Some (RefresherTick None 7)
  ∧ poller_phase (after maxAttempts_src 7 (loaded ++ [Click])) = Triggering
  ∧ fetch_calls (step maxAttempts_src (after maxAttempts_src 7 (loaded ++ [Click])) (Fire 1)).2 = 0.
Proof.
  split; [reflexivity|]. split; [reflexivity|].
  refine (proj1 (refresher_silent_while_poller_busy maxAttempts_src 7 (loaded ++ [Click])
                   1 None 7 eq_refl eq_refl _)).
  discriminate.
Defined.

(** C4, as stated, fails: after a route change made while a processing
    record was on screen, the refresher fetches on every tick, also while
    the trigger of a reanalysis is in flight and while a poll fetch for the
    same reference is in flight. *)
Lemma refresher_fetches_during_reanalysis :
  poller_phase (after maxAttempts_src 7 navigated_then_clicked) = Triggering
  ∧ (step maxAttempts_src (after maxAttempts_src 7 navigated_then_clicked) (Fire 3)).2
    = [CallGetReference 8 5]
  ∧ (let w := after maxAttempts_src 7 (navigated_then_clicked
                            ++ [Resolve 4 (sample 8 completed); Fire 5]) in
     poller_phase w = Polling
     ∧ requests w !! 6 = Some (AwaitPoll 8 0)
     ∧ (step maxAttempts_src w (Fire 3)).2 = [CallGetReference 8 7]).
Proof. vm_compute. done. Qed.

(** C5 fails on the code: when the first poll fetch is rejected the cycle
    ends with the success notification and the error banner both on
    screen. *)
Lemma success_and_error_banners_together :
  let w := (run maxAttempts_src (after maxAttempts_src 7 loaded)
              (cycle_events 2 (sample 7 completed) [None])).1 in
  showSuccessMessage w = true
  ∧ error w = msg_poll_failed
  ∧ render w = Report true (Some msg_poll_failed) false.
Proof. vm_compute. done. Qed.

Lemma terminal_status_witness :
  isMounted (after maxAttempts_src 7 loaded) = true
  ∧ can_reanalyze (after maxAttempts_src 7 loaded) = true
  ∧ fetch_calls
      (run maxAttempts_src (after maxAttempts_src 7 loaded)
         (cycle_events 2 (sample 7 completed)
            (Some <$> (replicate 14 (sample 7 processing)
                         ++ [sample 7 completed])))).2 = 15.
Proof.
  split; [reflexivity|]. split; [reflexivity|].
  refine (proj1 (terminal_status_stops_the_loop maxAttempts_src 7 loaded
                   (sample 7 completed) (replicate 14 (sample 7 processing))
                   (sample 7 completed) 15 eq_refl eq_refl eq_refl _ _ _)).
  - reflexivity.
  - repeat constructor.
  - by left.
Defined.

Lemma trigger_failure_witness :
  isMounted (after maxAttempts_src 7 loaded) = true
  ∧ can_reanalyze (after maxAttempts_src 7 loaded) = true
  ∧ fetch_calls (run maxAttempts_src (after maxAttempts_src 7 loaded) [Click; Reject 2]).2 = 0.
Proof.
  split; [reflexivity|]. split; [reflexivity|].
  exact (proj1 (proj2 (trigger_failure_makes_no_fetch maxAttempts_src 7 loaded
                         eq_refl eq_refl))).
Defined.

Lemma fetch_error_witness :
  requests (after maxAttempts_src 7 []) !! 0 = Some AwaitFetchReport
  ∧ data (step maxAttempts_src (after maxAttempts_src 7 []) (Reject 0)).1 = data (after maxAttempts_src 7 []).
Proof.
  split; [reflexivity|].
  exact (proj1 (fetch_error_leaves_data maxAttempts_src (after maxAttempts_src 7 []) 0 AwaitFetchReport
                  eq_refl (or_introl eq_refl))).
Defined.

Lemma mount_refresher_witness :
  forallb no_navigation [Resolve 0 (sample 7 processing); Fire 1; Fire 1]
    = true
  ∧ is_processing
      (data (after maxAttempts_src 7 [Resolve 0 (sample 7 processing)])) = true
  ∧ refresher_fetches maxAttempts_src (mount 7).1
      [Resolve 0 (sample 7 processing); Fire 1; Fire 1] = 0.
Proof.
  split; [reflexivity|]. split; [reflexivity|].
  exact (proj2 (mount_refresher_never_fetches maxAttempts_src 7
                  [Resolve 0 (sample 7 processing); Fire 1; Fire 1]
                  eq_refl)).
Defined.

(** C10, as stated, fails: within one mount a change of the route
    parameter runs the effect again, and the interval it installs captures
    the record then on screen; that record is a processing one, so the
    tick of the new interval fetches. *)
Lemma route_change_refresher_fetches :
  isMounted (after maxAttempts_src 7
               [Resolve 0 (sample 7 processing); Navigate 8; Fire 3]) = true
  ∧ timers (after maxAttempts_src 7
              [Resolve 0 (sample 7 processing); Navigate 8]) !! 3
    = Some (RefresherTick (Some (sample 7 processing)) 8)
  ∧ (step maxAttempts_src
       (after maxAttempts_src 7 [Resolve 0 (sample 7 processing); Navigate 8])
       (Fire 3)).2
    = [CallGetReference 8 4]
  ∧ refresher_fetches maxAttempts_src (mount 7).1
      [Resolve 0 (sample 7 processing); Navigate 8; Fire 3] = 1.
Proof. vm_compute. done. Qed.

(** *** The view outside a reanalysis cycle *)

(** As [explode], for a step whose event is already a constructor. *)
Ltac explode_world w :=
  destruct w; simpl in *; unfold_cmds; simpl in *;
  repeat (case_match; simpl in *; simplify_eq; try done).

(** Close a case of [interval_installed_step]: the interval of the effect
    is the entry just inserted, or one that no update touched. *)
Ltac keep_interval :=
  intros; simpl in *; try discriminate;
  repeat match goal with
  | H : ?a = ?a → _ |- _ => specialize (H eq_refl)
  | H : ?P → _, H' : ?P |- _ => specialize (H H')
  | H : ∃ c, _ |- _ => destruct H as [? H]
  end;
  try (eexists; apply lookup_insert_eq);
  try (eexists;
       repeat first
         [ rewrite lookup_insert_ne by lia
         | rewrite lookup_delete_ne by congruence ];
       eassumption).

(** Rewrite a chain of field updates of a literal world as one literal. *)
Ltac flat_world :=
  cbv [with_id with_data with_loading with_error with_reanalyzing
       with_showSuccessMessage with_isMounted with_successTimeoutRef
       with_interval with_timers with_requests with_next
       id data loading error reanalyzing showSuccessMessage isMounted
       successTimeoutRef interval timers requests next] in *.

Section View.

Variable maxAttempts : nat.

Lemma can_reanalyze_data w : can_reanalyze w = true → is_Some (data w).
Proof.
  unfold can_reanalyze, render. repeat case_match; try done; eauto.
Qed.

Lemma has_content_step w e :
  has_content w → has_content (step maxAttempts w e).1.
Proof.
  unfold has_content. intros Hc.
  destruct e.
  - unfold step. destruct (isMounted w && can_reanalyze w) eqn:E; [|done].
    apply andb_true_iff in E as [Hm Hcan].
    apply can_reanalyze_data in Hcan.
    destruct w; simpl in *. intros _. by left.
  - explode_world w.
  - explode_world w.
  - explode_world w.
  - explode_world w. all: intros; eauto.
  - explode_world w. all: intros; eauto.
Qed.

Lemma has_content_after i es : has_content (after maxAttempts i es).
Proof.
  unfold after. apply (run_preserves maxAttempts has_content).
  - apply has_content_step.
  - unfold has_content. simpl. done.
Qed.

(** X2: the component body never reaches the destructuring of [data]
    with [data] still null: in every state reached from a mount, once the
    spinner is off there is a record to show or the error page is shown. *)
Theorem render_never_throws i es :
  render (after maxAttempts i es) ≠ RenderThrows.
Proof.
  pose proof (has_content_after i es) as Hc. unfold has_content in Hc.
  unfold render. destruct (loading (after maxAttempts i es)); [done|].
  destruct (data (after maxAttempts i es)) as [d|] eqn:Hd.
  - rewrite andb_false_r. repeat case_match; done.
  - destruct (Hc eq_refl) as [[? ?]|Ht]; [done|].
    unfold truthy. rewrite (bool_decide_eq_false_2 _ Ht). done.
Qed.

End View.

Section Interval.

Variable maxAttempts : nat.

Lemma interval_installed_step w e :
  handles_fresh w → interval_installed w →
  interval_installed (step maxAttempts w e).1.
Proof.
  unfold interval_installed. intros [_ _ Fi _] Hi.
  destruct e.
  - unfold step. destruct (isMounted w && can_reanalyze w) eqn:E; [|done].
    apply andb_true_iff in E as [Hm _].
    destruct w; simpl in *; subst. keep_interval.
  - explode_world w. all: keep_interval.
  - explode_world w. all: keep_interval.
  - explode_world w. all: keep_interval.
  - explode_world w. all: keep_interval.
  - explode_world w. all: keep_interval.
Qed.

Lemma interval_installed_after i es :
  interval_installed (after maxAttempts i es).
Proof.
  cut (handles_fresh (after maxAttempts i es)
       ∧ interval_installed (after maxAttempts i es)); [tauto|].
  unfold after.
  apply (run_preserves maxAttempts (λ w, handles_fresh w ∧ interval_installed w)).
  - intros w e [? ?]; split;
      [by apply handles_fresh_step | by apply interval_installed_step].
  - split; [apply handles_fresh_mount|].
    intros _. exists None. simpl. apply lookup_insert_eq.
Qed.

(** X3: while the page is mounted exactly one refresher interval is
    installed, the one the cleanup will clear, and its callback fetches the
    reference of the current route; once the page is unmounted none is
    left. *)
Theorem one_refresher_interval_while_mounted i es :
  let w := after maxAttempts i es in
  (isMounted w = true →
   ∃ c, timers w !! interval w = Some (RefresherTick c (id w)))
  ∧ (∀ t c j, timers w !! t = Some (RefresherTick c j) →
              isMounted w = true ∧ t = interval w).
Proof.
  split.
  - apply interval_installed_after.
  - apply (handles_kinds_after maxAttempts i es).
Qed.

End Interval.

Section Stalled.

Variable maxAttempts : nat.

(** X1: at most one continuation of handleReanalyze is parked at any
    time, be it the reply to the trigger, the settling timer, the reply to
    a poll or the timer between two polls; and none is parked whenever a
    mounted page offers an enabled button.  A page instance never has two
    reanalysis cycles in flight. *)
Theorem one_reanalysis_cycle_at_a_time i es :
  let w := after maxAttempts i es in
  (∀ h h' k k',
     requests w !! h = Some k → is_cycle_request k = true →
     requests w !! h' = Some k' → is_cycle_request k' = true → h = h')
  ∧ (∀ h h' k k',
       timers w !! h = Some k → is_cycle_timer k = true →
       timers w !! h' = Some k' → is_cycle_timer k' = true → h = h')
  ∧ (∀ h h' k k',
       requests w !! h = Some k → is_cycle_request k = true →
       timers w !! h' = Some k' → is_cycle_timer k' = true → False)
  ∧ (isMounted w = true → can_reanalyze w = true →
     (∀ h k, requests w !! h = Some k → is_cycle_request k = false)
     ∧ (∀ h k, timers w !! h = Some k → is_cycle_timer k = false)).
Proof.
  cbn zeta.
  destruct (one_cycle_after maxAttempts i es) as [H1 H2 H3 H4 H5].
  revert H1 H2 H3 H4 H5. generalize (after maxAttempts i es).
  intros w H1 H2 H3 H4 H5.
  split; [exact H1|]. split; [exact H2|]. split; [exact H3|].
  intros Hm Hc. pose proof (can_reanalyze_idle w Hc) as Hre.
  split; intros h k Hk; [exact (H4 h k Hm Hre Hk) | exact (H5 h k Hm Hre Hk)].
Qed.

(** X4: a route change leaves the screen as it is (the spinner is not
    turned on and the previous record stays), issues one fetch for the new
    id, and cancels no request in flight; a reply to a fetch issued for
    the previous id is stored when it arrives. *)
Theorem route_change_keeps_screen_and_stale_replies w i r k d :
  isMounted w = true → i ≠ id w →
  requests w !! r = Some k →
  k = AwaitFetchReport ∨ (∃ cid a, k = AwaitPoll cid a
                                   ∧ status (reference d) ≠ processing) →
  let s := step maxAttempts w (Navigate i) in
  render s.1 = render w
  ∧ filter is_fetch s.2 = [CallGetReference i (next w)]
  ∧ isMounted s.1 = true
  ∧ is_Some (requests s.1 !! r)
  ∧ data (run maxAttempts w [Navigate i; Resolve r d]).1 = Some d.
Proof.
  intros Hm Hi Hr Hk s.
  assert (step maxAttempts w (Navigate i) =
            (useEffect_cleanup ;; useEffect) (with_id i w)) as Hs.
  { unfold step. rewrite Hm. by rewrite (bool_decide_eq_false_2 _ Hi). }
  subst s. rewrite !run_cons. rewrite Hs. clear Hs.
  destruct w as [wid wdata wload werr wre wshow wm wref wint wt wr wn].
  simpl in *. subst wm.
  destruct wref as [n|]; unfold_cmds; simpl.
  all: destruct (decide (r = wn)) as [->|Hne];
    [rewrite lookup_insert_eq | rewrite lookup_insert_ne by done; rewrite Hr].
  all: destruct Hk as [-> | (cid & a & -> & Hd)]; simpl.
  all: try rewrite Hr.
  all: unfold pollForResults_resolved, ifMounted, andThen; simpl.
  all: try rewrite (bool_decide_eq_false_2 _ Hd); simpl.
  all: repeat split; eauto.
Qed.

Lemma stalled_render w : stalled w → render w = InProgress false.
Proof.
  intros (Hl & Hre & Hp & _). unfold render. rewrite Hl, Hre.
  destruct (data w) as [d|]; [|done]. simpl in Hp.
  rewrite andb_false_r, Hp. done.
Qed.

Lemma stalled_step w e :
  no_navigation e = true → stalled w →
  stalled (step maxAttempts w e).1 ∧ fetch_calls (step maxAttempts w e).2 = 0.
Proof.
  intros Hn Hst. pose proof (stalled_render w Hst) as Hrender.
  pose proof Hst as (Hl & Hre & Hp & Hreq & Ht).
  destruct e as [| |  |t|r d|r]; try done.
  - unfold step, can_reanalyze. rewrite Hrender, andb_false_r. by split.
  - unfold step. destruct (isMounted w) eqn:Hm; [|by split].
    clear Hst Hrender.
    destruct w as [wid wdata wload werr wre wshow wm wref wint wt wr wn].
    simpl in *. destruct wref as [n|]; unfold_cmds; simpl.
    all: split; [|done]; repeat split; try done.
    all: intros t k Hk; simpl in Hk; map_cases; eauto.
  - unfold step. destruct (timers w !! t) as [k|] eqn:Hk; [|by split].
    destruct (Ht _ _ Hk) as [-> | (cid & ->)]; [|by split].
    clear Hst Hrender.
    destruct w as [wid wdata wload werr wre wshow wm wref wint wt wr wn].
    simpl in *. destruct wm; unfold_cmds; simpl.
    all: split; [|done]; repeat split; try done.
    all: intros t' k' Hk'; simpl in Hk'; map_cases; eauto.
  - unfold step. rewrite Hreq, lookup_empty. by split.
  - unfold step. rewrite Hreq, lookup_empty. by split.
Qed.

Lemma stalled_run es : ∀ w,
  forallb no_navigation es = true → stalled w →
  stalled (run maxAttempts w es).1 ∧ fetch_calls (run maxAttempts w es).2 = 0.
Proof.
  induction es as [|e es IH]; intros w Hes Hst; [done|].
  simpl in Hes. apply andb_true_iff in Hes as [He Hes].
  destruct (stalled_step w e He Hst) as [Hst1 Hf1].
  destruct (IH _ Hes Hst1) as [Hst2 Hf2].
  rewrite run_cons. simpl. split; [done|].
  rewrite fetch_calls_app. lia.
Qed.

(** The reply to the first load, on the view that [mount] leaves. *)
Lemma step_first_load i d :
  step maxAttempts (mount i).1 (Resolve 0 d) =
    (mkWorld i (Some d) false EmptyString false false true None 1
       {[1 := RefresherTick None i]} ∅ 2,
     [SetData d; SetLoading false]).
Proof.
  unfold step, mount, useEffect, initial. unfold_cmds. simpl.
  rewrite lookup_insert_eq. simpl.
  by rewrite delete_insert_id, insert_empty.
Qed.

(** X5: a first load that returns a processing record leaves the page on
    the in-progress screen for good: as long as the route does not change,
    no later event makes the page fetch the reference again, the
    refresher interval included. *)
Theorem processing_first_load_never_refreshes i d es :
  status (reference d) = processing →
  forallb no_navigation es = true →
  let r := run maxAttempts (mount i).1 (Resolve 0 d :: es) in
  fetch_calls r.2 = 0 ∧ render r.1 = InProgress false.
Proof.
  intros Hd Hes r. subst r. rewrite run_cons, step_first_load.
  cbn [fst snd].
  set (w := mkWorld i (Some d) false EmptyString false false true None 1
              {[1 := RefresherTick None i]} ∅ 2).
  assert (stalled w) as Hst.
  { repeat split; try done.
    - simpl. by apply bool_decide_eq_true_2.
    - intros t k Hk. simpl in Hk.
      apply lookup_singleton_Some in Hk as [_ <-]. eauto. }
  destruct (stalled_run es w Hes Hst) as [Hst' Hf].
  split.
  - rewrite fetch_calls_app, Hf. done.
  - by apply stalled_render.
Qed.

Lemma can_reanalyze_loaded w : can_reanalyze w = true → loading w = false.
Proof.
  unfold can_reanalyze, render. by destruct (loading w).
Qed.

Lemma first_load_only_step w e :
  no_navigation e = true → captured_null w →
  first_load_only w → first_load_only (step maxAttempts w e).1.
Proof.
  unfold first_load_only, captured_null. intros Hn Hc Hf.
  destruct e; try done.
  - unfold step. destruct (isMounted w && can_reanalyze w) eqn:E; [|done].
    apply andb_true_iff in E as [_ Hcan].
    apply can_reanalyze_loaded in Hcan.
    destruct w; simpl in *. intros r Hr. map_cases; [done|].
    apply Hf in Hr. naive_solver.
  - explode_world w.
    all: intros r' Hr'; simpl in *; map_cases; simplify_eq; eauto.
  - explode_world w.
    all: try (intros r' Hr'; simpl in *; map_cases; simplify_eq; eauto; fail).
    all: match goal with
         | H : _ !! _ = Some (RefresherTick _ _) |- _ =>
             apply Hc in H; by subst
         end.
  - explode_world w.
    all: intros r' Hr'; simpl in *; map_cases; simplify_eq; eauto.
    all: match goal with
         | H1 : ?m !! ?a = Some AwaitFetchReport,
           H2 : ?m !! ?b = Some AwaitFetchReport |- _ =>
             destruct (Hf _ H1), (Hf _ H2); congruence
         end.
  - explode_world w.
    all: intros r' Hr'; simpl in *; map_cases; simplify_eq; eauto.
    all: match goal with
         | H1 : ?m !! ?a = Some AwaitFetchReport,
           H2 : ?m !! ?b = Some AwaitFetchReport |- _ =>
             destruct (Hf _ H1), (Hf _ H2); congruence
         end.
Qed.

Lemma first_load_only_run es : ∀ w,
  forallb no_navigation es = true →
  captured_null w → first_load_only w →
  captured_null (run maxAttempts w es).1
  ∧ first_load_only (run maxAttempts w es).1.
Proof.
  induction es as [|e es IH]; intros w Hes Hc Hf; [done|].
  simpl in Hes. apply andb_true_iff in Hes as [He Hes].
  rewrite run_cons. cbn [fst].
  apply IH; [done | by apply captured_null_step
            | by apply first_load_only_step].
Qed.

Lemma first_load_only_mount i : first_load_only (mount i).1.
Proof.
  intros r Hr. simpl in *. map_cases; [done|].
  by rewrite lookup_empty in Hr.
Qed.

(** A mounted view that offers the button, and whose route never changed,
    has nothing in flight and no timer of a cycle. *)
Lemma idle_view_is_quiet i es :
  forallb no_navigation es = true →
  let w := after maxAttempts i es in
  isMounted w = true → can_reanalyze w = true →
  requests w = ∅
  ∧ ∀ t k, timers w !! t = Some k →
           k = SuccessClear ∨ ∃ cid, k = RefresherTick None cid.
Proof.
  intros Hes w Hm Hcan.
  destruct (first_load_only_run es _ Hes (captured_null_mount i)
              (first_load_only_mount i)) as [Hc Hf].
  destruct (one_cycle_after maxAttempts i es) as [_ _ _ Ir It].
  fold (after maxAttempts i es) in Hc, Hf. fold w in Hc, Hf, Ir, It.
  pose proof (can_reanalyze_loaded w Hcan) as Hl.
  pose proof (can_reanalyze_idle w Hcan) as Hre.
  split.
  - apply map_empty. intros r.
    destruct (requests w !! r) as [k|] eqn:Hk; [|done].
    pose proof (Ir _ _ Hm Hre Hk) as Hcyc.
    destruct k; try done. apply Hf in Hk as [_ Hk]. congruence.
  - intros t k Hk. pose proof (It _ _ Hm Hre Hk) as Hcyc.
    destruct k as [c cid| | |]; try done; [|by left].
    right. exists cid. by rewrite (Hc _ _ _ Hk).
Qed.

(** X7: on a page whose route has not changed since it was mounted, after
    a poll loop that used up its budget on processing replies the page is
    on the in-progress screen without a button, and as long as the route
    still does not change no later event makes it fetch again. *)
Theorem exhausted_budget_leaves_page_in_progress i es reply ds d es' :
  forallb no_navigation es = true →
  let w := after maxAttempts i es in
  isMounted w = true → can_reanalyze w = true →
  length ds = maxAttempts →
  Forall (λ d, status (reference d) = processing) (ds ++ [d]) →
  forallb no_navigation es' = true →
  let w' := (run maxAttempts w
               (cycle_events (next w) reply (Some <$> (ds ++ [d])))).1 in
  fetch_calls (run maxAttempts w' es').2 = 0
  ∧ render (run maxAttempts w' es').1 = InProgress false.
Proof.
  intros Hes w Hm Hcan Hlen Hall Hes' w'.
  apply Forall_app in Hall as [Hds Hd]. apply Forall_inv in Hd.
  destruct (idle_view_is_quiet i es Hes Hm Hcan) as [Hreq Htim].
  fold w in Hreq, Htim.
  pose proof (can_reanalyze_loaded w Hcan) as Hl.
  assert (stalled w') as Hst.
  { subst w'. rewrite (run_cycle maxAttempts w reply ds d);
      [| apply handles_fresh_after | done | done | done | lia | by right].
    cbn [fst]. clearbody w.
    destruct w as [wid wdata wload werr wre wshow wm wref wint wt wr wn].
    unfold stalled. simpl in *. repeat split; try done.
    - by apply bool_decide_eq_true_2.
    - intros t k Hk. map_cases; [by left | eauto]. }
  destruct (stalled_run es' w' Hes' Hst) as [Hst' Hf].
  split; [done | by apply stalled_render].
Qed.

(** X6: a reanalysis cycle that ends normally turns the success
    notification on and adds one timer to clear it, the one it stores in
    [successTimeoutRef], to the timers that were pending; it cancels none
    of them.  When the new timer fires the notification goes off, nothing
    else of the view changes, and the timers are those from before the
    cycle.  A success timer that an earlier cycle left pending clears the
    new notification just the same, with the new timer still to come. *)
Theorem success_notification_clears_itself i es reply ds d :
  let w := after maxAttempts i es in
  isMounted w = true → can_reanalyze w = true →
  Forall (λ d, status (reference d) = processing) ds →
  length ds ≤ maxAttempts →
  status (reference d) ≠ processing ∨ length ds = maxAttempts →
  let s := S (S (S (next w))) + 2 * length ds in
  let w1 := (run maxAttempts w
               (cycle_events (next w) reply (Some <$> (ds ++ [d])))).1 in
  successTimeoutRef w1 = Some s
  ∧ timers w !! s = None
  ∧ timers w1 = <[s := SuccessClear]> (timers w)
  ∧ showSuccessMessage w1 = true
  ∧ step maxAttempts w1 (Fire s)
    = (with_timers (timers w) (with_showSuccessMessage false w1),
       [SetShowSuccessMessage false])
  ∧ (∀ t, timers w !! t = Some SuccessClear →
          step maxAttempts w1 (Fire t)
          = (with_timers (<[s := SuccessClear]> (delete t (timers w)))
               (with_showSuccessMessage false w1),
             [SetShowSuccessMessage false]))
  ∧ poller_phase w1 = Succeeded
  ∧ poller_phase (step maxAttempts w1 (Fire s)).1 = Idle.
Proof.
  intros w Hm Hcan Hds Hlen Hstop s w1.
  pose proof (handles_fresh_after maxAttempts i es) as Hf. fold w in Hf.
  pose proof (fresh_lookup_timers w s Hf ltac:(subst s; lia)) as Hs.
  subst w1. rewrite (run_cycle maxAttempts w reply ds d); try done.
  fold s. cbn [fst]. clearbody s. clearbody w.
  destruct w as [wid wdata wload werr wre wshow wm wref wint wt wr wn].
  flat_world. subst wm.
  assert (step maxAttempts
            (mkWorld wid (Some d) wload EmptyString false true true
               (Some s) wint (<[s:=SuccessClear]> wt) wr (S s)) (Fire s)
          = (mkWorld wid (Some d) wload EmptyString false false true
               (Some s) wint wt wr (S s), [SetShowSuccessMessage false])) as Hfire.
  { unfold step. simpl. rewrite lookup_insert_eq. simpl.
    unfold_cmds. simpl. by rewrite delete_insert_id. }
  rewrite Hfire.
  split; [done|]. split; [done|]. split; [done|]. split; [done|].
  split; [done|]. split; [|by split].
  intros t Ht.
  assert (t ≠ s) as Hts by (intros ->; congruence).
  unfold step. simpl. rewrite lookup_insert_ne by done. rewrite Ht. simpl.
  unfold_cmds. simpl. by rewrite delete_insert_ne by done.
Qed.

End Stalled.

(** The same at [maxAttempts = 15], on a view of reference 7. *)

Lemma route_change_witness :
  isMounted (mount 7).1 = true
  ∧ 8 ≠ id (mount 7).1
  ∧ requests (mount 7).1 !! 0 = Some AwaitFetchReport
  ∧ data (run maxAttempts_src (mount 7).1
            [Navigate 8; Resolve 0 (sample 7 completed)]).1
    = Some (sample 7 completed).
Proof.
  split; [reflexivity|]. split; [simpl; lia|]. split; [reflexivity|].
  refine (proj2 (proj2 (proj2 (proj2
    (route_change_keeps_screen_and_stale_replies maxAttempts_src (mount 7).1 8 0
       AwaitFetchReport (sample 7 completed) eq_refl _ eq_refl
       (or_introl eq_refl)))))).
  simpl; lia.
Defined.

Lemma processing_first_load_witness :
  status (reference (sample 7 processing)) = processing
  ∧ forallb no_navigation [Fire 1; Click; Fire 1] = true
  ∧ fetch_calls
      (run maxAttempts_src (mount 7).1
         (Resolve 0 (sample 7 processing) :: [Fire 1; Click; Fire 1])).2 = 0.
Proof.
  split; [reflexivity|]. split; [reflexivity|].
  exact (proj1 (processing_first_load_never_refreshes maxAttempts_src 7
                  (sample 7 processing) [Fire 1; Click; Fire 1]
                  eq_refl eq_refl)).
Defined.

Lemma success_notification_witness :
  isMounted (after maxAttempts_src 7 reanalysed_once) = true
  ∧ can_reanalyze (after maxAttempts_src 7 reanalysed_once) = true
  ∧ timers (after maxAttempts_src 7 reanalysed_once) !! 5 = Some SuccessClear
  ∧ showSuccessMessage
      (step maxAttempts_src
         (run maxAttempts_src (after maxAttempts_src 7 reanalysed_once)
            (cycle_events (next (after maxAttempts_src 7 reanalysed_once))
               (sample 7 completed)
               (Some <$> ([] ++ [sample 7 completed])))).1
         (Fire 5)).1 = false.
Proof.
  split; [reflexivity|]. split; [reflexivity|]. split; [reflexivity|].
  refine (f_equal (λ r, showSuccessMessage r.1)
    (proj1 (proj2 (proj2 (proj2 (proj2 (proj2
      (success_notification_clears_itself maxAttempts_src 7 reanalysed_once
         (sample 7 completed) [] (sample 7 completed)
         eq_refl eq_refl _ _ _))))))
       5 eq_refl)).
  - constructor.
  - vm_compute. lia.
  - left. discriminate.
Defined.

Lemma exhausted_budget_page_witness :
  forallb no_navigation loaded = true
  ∧ isMounted (after maxAttempts_src 7 loaded) = true
  ∧ can_reanalyze (after maxAttempts_src 7 loaded) = true
  ∧ render
      (run maxAttempts_src
         (run maxAttempts_src (after maxAttempts_src 7 loaded)
            (cycle_events (next (after maxAttempts_src 7 loaded))
               (sample 7 completed)
               (Some <$> (replicate 15 (sample 7 processing)
                            ++ [sample 7 processing])))).1
         [Fire 1; Click]).1 = InProgress false.
Proof.
  split; [reflexivity|]. split; [reflexivity|]. split; [reflexivity|].
  refine (proj2 (exhausted_budget_leaves_page_in_progress maxAttempts_src 7
                   loaded (sample 7 completed)
                   (replicate 15 (sample 7 processing)) (sample 7 processing)
                   [Fire 1; Click] eq_refl eq_refl eq_refl eq_refl _ eq_refl)).
  repeat constructor.
Defined.

(** *** The first ReportPage *)

Section ReportPageV1Props.

Import ReportPageV1.

Lemma v1_run_cons w e es :
  ReportPageV1.run w (e :: es) =
    ((ReportPageV1.run (ReportPageV1.step w e).1 es).1,
     (ReportPageV1.step w e).2
       ++ (ReportPageV1.run (ReportPageV1.step w e).1 es).2).
Proof.
  simpl. destruct (ReportPageV1.step w e) as [w1 l1]; simpl.
  by destruct (ReportPageV1.run w1 es).
Qed.

Lemma error_shown_truthy msg w :
  error_shown msg w → truthy (error w) = true.
Proof.
  intros [_ [-> | [-> | [-> Hm]]]]; unfold truthy; try done.
  by rewrite bool_decide_eq_false_2.
Qed.

Lemma error_shown_step msg w e :
  error_shown msg w → error_shown msg (ReportPageV1.step w e).1.
Proof.
  intros Hs. pose proof (error_shown_truthy _ _ Hs) as Ht.
  destruct Hs as [Hl He]. unfold error_shown.
  destruct w as [i d l er ra iv ts rs nx]. simpl in *. subst l.
  destruct e as [| j | t | r resp | r]; simpl.
  - unfold can_reanalyze, render. simpl. rewrite Ht. by simpl.
  - by case_bool_decide.
  - destruct (ts !! t) as [[c cid|cid]|]; simpl; unfold refresher_tick;
      try destruct (is_processing c); by simpl.
  - destruct (rs !! r) as [[|cid]|]; by simpl.
  - destruct (rs !! r) as [[|cid]|]; simpl; auto.
Qed.

Lemma error_shown_run msg es : ∀ w,
  error_shown msg w → error_shown msg (ReportPageV1.run w es).1.
Proof.
  induction es as [|e es IH]; intros w Hs; [done|].
  rewrite v1_run_cons. cbn [fst]. by apply IH, error_shown_step.
Qed.

Lemma error_shown_render msg w :
  error_shown msg w →
  (ReportPageV1.render w = ReportPageV1.ErrorPage msg_load_failed
   ∨ ReportPageV1.render w = ReportPageV1.ErrorPage msg_reanalyze_failed
   ∨ ReportPageV1.render w = ReportPageV1.ErrorPage msg)
  ∧ ReportPageV1.can_reanalyze w = false.
Proof.
  intros Hs. pose proof (error_shown_truthy _ _ Hs) as Ht.
  destruct Hs as [Hl He]. unfold can_reanalyze, render. rewrite Hl, Ht.
  split; [|done]. destruct He as [-> | [-> | [-> _]]]; auto.
Qed.

(** X8: in the first ReportPage no handler clears an error.  Once the
    error page is on screen it stays, whatever is answered, fired or
    navigated to; at most its message changes to one of the two the page
    has, and the Reanalyze button does not come back. *)
Theorem v1_error_page_is_final w msg es :
  ReportPageV1.render w = ReportPageV1.ErrorPage msg →
  let w' := (ReportPageV1.run w es).1 in
  (ReportPageV1.render w' = ReportPageV1.ErrorPage msg_load_failed
   ∨ ReportPageV1.render w' = ReportPageV1.ErrorPage msg_reanalyze_failed
   ∨ ReportPageV1.render w' = ReportPageV1.ErrorPage msg)
  ∧ ReportPageV1.can_reanalyze w' = false.
Proof.
  intros Hr. apply error_shown_render, error_shown_run.
  unfold render, truthy in Hr. split.
  - by destruct (loading w).
  - destruct (loading w); [discriminate|].
    case_bool_decide as E; simpl in Hr.
    + destruct (data w) as [d|]; [|discriminate].
      repeat case_bool_decide; discriminate.
    + injection Hr as <-. auto.
Qed.

Lemma v1_error_page_witness :
  ReportPageV1.can_reanalyze
    (ReportPageV1.run
       (ReportPageV1.run (ReportPageV1.mount 7).1 [Reject 0]).1
       [Navigate 8; Resolve 2 (sample 8 completed)]).1 = false.
Proof.
  refine (proj2 (v1_error_page_is_final
                   (ReportPageV1.run (ReportPageV1.mount 7).1 [Reject 0]).1
                   msg_load_failed
                   [Navigate 8; Resolve 2 (sample 8 completed)] _)).
  vm_compute. reflexivity.
Defined.




End ReportPageV1Props.

(** *** HistoryPage *)

Section HistoryPageProps.

Import HistoryPage.

Lemma history_run_cons w e es :
  HistoryPage.run w (e :: es) =
    ((HistoryPage.run (HistoryPage.step w e).1 es).1,
     (HistoryPage.step w e).2 ++ (HistoryPage.run (HistoryPage.step w e).1 es).2).
Proof.
  simpl. destruct (HistoryPage.step w e) as [w1 l1]; simpl.
  by destruct (HistoryPage.run w1 es).
Qed.

Lemma history_step_ClickDelete w id :
  loading w = false → error w = EmptyString →
  id ∈ reference_id <$> references w →
  HistoryPage.step w (ClickDelete id true) =
    (HistoryPage.mkWorld (references w) false EmptyString
       (<[HistoryPage.next w := AwaitDelete id (references w)]> (requests w))
       (S (HistoryPage.next w)),
     [Confirm msg_confirm true; CallDeleteReference id (HistoryPage.next w)]).
Proof.
  intros Hl He Hid.
  destruct w as [wrefs wl we wq wn]. simpl in *. subst.
  unfold HistoryPage.step, HistoryPage.render. simpl.
  destruct wrefs as [|row rows]; [by apply elem_of_nil in Hid|].
  by rewrite (bool_decide_eq_true_2 _ Hid).
Qed.

Lemma history_step_Resolve_delete w r id captured d :
  requests w !! r = Some (AwaitDelete id captured) →
  HistoryPage.step w (HistoryPage.Resolve r d) =
    (HistoryPage.mkWorld (without id captured) (loading w) (error w)
       (delete r (requests w)) (HistoryPage.next w),
     [SetReferences (without id captured)]).
Proof. intros Hr. unfold HistoryPage.step. by rewrite Hr. Qed.

Lemma history_step_Reject_delete w r id captured :
  requests w !! r = Some (AwaitDelete id captured) →
  HistoryPage.step w (HistoryPage.Reject r) =
    (HistoryPage.mkWorld (references w) (loading w) (error w)
       (delete r (requests w)) (HistoryPage.next w),
     [Alert msg_delete_failed]).
Proof. intros Hr. unfold HistoryPage.step. by rewrite Hr. Qed.

Lemma without_ids id rows :
  id ∉ reference_id <$> without id rows.
Proof.
  unfold without. intros Hin.
  apply list_elem_of_fmap in Hin as (row & -> & Hrow).
  by apply list_elem_of_filter in Hrow as [Hne _].
Qed.

Lemma without_keeps id id' rows :
  id' ≠ id → id' ∈ reference_id <$> rows →
  id' ∈ reference_id <$> without id rows.
Proof.
  unfold without. intros Hne Hin.
  apply list_elem_of_fmap in Hin as (row & -> & Hrow).
  apply list_elem_of_fmap. exists row. split; [done|].
  by apply list_elem_of_filter.
Qed.

Ltac history_norm :=
  cbn [fst snd references loading error requests HistoryPage.next].

(** Run the next event of the list: a confirmed click on a row on screen,
    or the fulfilment of the delete in flight under handle [r]. *)
Ltac history_click :=
  rewrite history_run_cons;
  erewrite history_step_ClickDelete;
    [history_norm | history_norm; try done; try (by apply without_keeps)..].
Ltac history_reply :=
  rewrite history_run_cons;
  erewrite history_step_Resolve_delete;
    [history_norm
    | history_norm;
      repeat first [ rewrite lookup_insert_ne by lia
                   | rewrite lookup_delete_ne by lia ];
      apply lookup_insert_eq].

(** X10: a confirmed delete that the server accepts removes from the table
    the rows of that reference and no other, keeping the order. *)
Theorem history_delete_removes_the_row rows w id d :
  showing rows w → id ∈ reference_id <$> rows →
  let r := HistoryPage.run w
             [ClickDelete id true; HistoryPage.Resolve (HistoryPage.next w) d] in
  references r.1 = without id rows
  ∧ (id ∉ reference_id <$> references r.1)
  ∧ (∀ row, reference_id row ≠ id → row ∈ references r.1 ↔ row ∈ rows)
  ∧ filter is_delete_call r.2 = [CallDeleteReference id (HistoryPage.next w)]
  ∧ requests r.1 = ∅.
Proof.
  intros (<- & Hl & He & Hq & Hne) Hid r. subst r.
  history_click. history_reply.
  cbn [HistoryPage.run fst snd references requests].
  split; [done|]. split; [apply without_ids|]. split; [|split].
  - intros row Hrow. unfold without. rewrite list_elem_of_filter. tauto.
  - done.
  - rewrite Hq. by apply delete_insert_id.
Qed.

(** X11: deletes made one after the other, each confirmed by the server
    before the next click, remove both rows. *)
Theorem history_deletes_in_turn_remove_both rows w a b da db :
  showing rows w → a ∈ reference_id <$> rows → b ∈ reference_id <$> rows →
  a ≠ b →
  let n := HistoryPage.next w in
  let r := HistoryPage.run w
             [ClickDelete a true; HistoryPage.Resolve n da;
              ClickDelete b true; HistoryPage.Resolve (S n) db] in
  references r.1 = without b (without a rows)
  ∧ (a ∉ reference_id <$> references r.1)
  ∧ (b ∉ reference_id <$> references r.1).
Proof.
  intros (<- & Hl & He & Hq & Hne) Ha Hb Hab n r. subst r n.
  history_click. history_reply. history_click. history_reply.
  cbn [HistoryPage.run fst snd references].
  split; [done|]. split; [|apply without_ids].
  intros Hin. apply (without_ids a (references w)).
  unfold without in Hin |- *.
  apply list_elem_of_fmap in Hin as (row & -> & Hrow).
  apply list_elem_of_filter in Hrow as [_ Hrow].
  apply list_elem_of_fmap. eauto.
Qed.

(** X12: two deletes in flight at once.  Each continuation filters the list
    of the render in which its button was pressed, so the reply that
    arrives last puts back the row the other one removed: that row is on
    screen again although the server has deleted it. *)
Theorem history_overlapping_deletes_restore_a_row rows w a b da db :
  showing rows w → a ∈ reference_id <$> rows → b ∈ reference_id <$> rows →
  a ≠ b →
  let n := HistoryPage.next w in
  let r := HistoryPage.run w
             [ClickDelete a true; ClickDelete b true;
              HistoryPage.Resolve n da; HistoryPage.Resolve (S n) db] in
  let r' := HistoryPage.run w
              [ClickDelete a true; ClickDelete b true;
               HistoryPage.Resolve (S n) db; HistoryPage.Resolve n da] in
  filter is_delete_call r.2 = [CallDeleteReference a n; CallDeleteReference b (S n)]
  ∧ references r.1 = without b rows
  ∧ a ∈ reference_id <$> references r.1
  ∧ references r'.1 = without a rows
  ∧ b ∈ reference_id <$> references r'.1.
Proof.
  intros (<- & Hl & He & Hq & Hne) Ha Hb Hab n r r'. subst r r' n.
  split; [|split; [|split; [|split]]].
  1-3: history_click; history_click; history_reply; history_reply.
  4-5: history_click; history_click; history_reply; history_reply.
  all: cbn [HistoryPage.run fst snd references]; try done.
  all: by apply without_keeps.
Qed.

(** X13: a delete that the user declines makes no call and changes nothing;
    one that the server rejects raises an alert and leaves the table as it
    was. *)
Theorem history_failed_delete_keeps_the_table rows w id :
  showing rows w → id ∈ reference_id <$> rows →
  HistoryPage.step w (ClickDelete id false) = (w, [Confirm msg_confirm false])
  ∧ (let r := HistoryPage.run w
                [ClickDelete id true; HistoryPage.Reject (HistoryPage.next w)] in
     r.1 = HistoryPage.mkWorld rows false EmptyString ∅ (S (HistoryPage.next w))
     ∧ r.2 = [Confirm msg_confirm true;
              CallDeleteReference id (HistoryPage.next w);
              Alert msg_delete_failed]).
Proof.
  intros (<- & Hl & He & Hq & Hne) Hid. split.
  - destruct w as [wrefs wl we wq wn]. simpl in *. subst.
    unfold HistoryPage.step, HistoryPage.render. simpl.
    destruct wrefs as [|row rows]; [done|].
    by rewrite (bool_decide_eq_true_2 _ Hid).
  - history_click. rewrite history_run_cons.
    erewrite history_step_Reject_delete by apply lookup_insert_eq.
    cbn [HistoryPage.run fst snd references loading error requests
         HistoryPage.next].
    rewrite Hq. by rewrite delete_insert_id.
Qed.

(** X14: the first load shows the rows its reply carries (an array, the
    [references] of an object, or nothing).  From the error page, Try
    Again sends one more getHistory and leaves the error page up, with no
    spinner, until the answer: a reply then shows its rows and clears the
    error, a failure shows the error page again with an empty list. *)
Theorem history_load_and_retry w msg d :
  HistoryPage.render w = ErrorPage msg →
  let n := HistoryPage.next w in
  let clicked := HistoryPage.step w ClickTryAgain in
  let r := HistoryPage.run w [ClickTryAgain; HistoryPage.Resolve n d] in
  let r' := HistoryPage.run w [ClickTryAgain; HistoryPage.Reject n] in
  clicked.2 = [CallGetHistory n]
  ∧ HistoryPage.render clicked.1 = ErrorPage msg
  ∧ references r.1 = rows_of d ∧ error r.1 = EmptyString ∧ loading r.1 = false
  ∧ filter is_history_call r.2 = [CallGetHistory n]
  ∧ references r'.1 = [] ∧ HistoryPage.render r'.1 = ErrorPage msg_history_failed
  ∧ references (HistoryPage.run HistoryPage.mount.1 [HistoryPage.Resolve 0 d]).1
    = rows_of d.
Proof.
  intros Hr. cbn zeta. rewrite !history_run_cons.
  assert (Hc : HistoryPage.step w ClickTryAgain = fetchHistory w).
  { unfold HistoryPage.step. by rewrite Hr. }
  rewrite Hc. unfold fetchHistory.
  cbn [fst snd HistoryPage.run].
  set (w1 := (HistoryPage.mkWorld (references w) (loading w) (error w)
                (<[HistoryPage.next w := AwaitHistory]> (requests w))
                (S (HistoryPage.next w)))).
  assert (Hres : HistoryPage.step w1 (HistoryPage.Resolve (HistoryPage.next w) d)
                 = fetchHistory_resolved d (drop (HistoryPage.next w) w1)).
  { unfold HistoryPage.step, w1. cbn [requests]. by rewrite lookup_insert_eq. }
  assert (Hrej : HistoryPage.step w1 (HistoryPage.Reject (HistoryPage.next w))
                 = fetchHistory_rejected (drop (HistoryPage.next w) w1)).
  { unfold HistoryPage.step, w1. cbn [requests]. by rewrite lookup_insert_eq. }
  rewrite Hres, Hrej. clear Hres Hrej Hc. unfold w1. clear w1.
  unfold fetchHistory_resolved, fetchHistory_rejected.
  cbn [fst snd references loading error].
  repeat split.
  unfold HistoryPage.render in *. cbn [loading error references].
  destruct (loading w); [discriminate|].
  destruct (negb (bool_decide (error w = EmptyString))); [done|].
  by destruct (references w).
Qed.

Lemma history_delete_witness :
  showing two_rows loaded_table
  ∧ 1 ∈ reference_id <$> two_rows
  ∧ references
      (HistoryPage.run loaded_table
         [ClickDelete 1 true;
          HistoryPage.Resolve (HistoryPage.next loaded_table) (DataArray [])]).1
    = without 1 two_rows.
Proof.
  assert (Hs : showing two_rows loaded_table) by (repeat split; done).
  assert (Hi : 1 ∈ reference_id <$> two_rows) by repeat constructor.
  split; [exact Hs|]. split; [exact Hi|].
  exact (proj1 (history_delete_removes_the_row two_rows loaded_table 1
                  (DataArray []) Hs Hi)).
Defined.

Lemma history_deletes_in_turn_witness :
  showing two_rows loaded_table
  ∧ references
      (HistoryPage.run loaded_table
         [ClickDelete 1 true;
          HistoryPage.Resolve (HistoryPage.next loaded_table) (DataArray []);
          ClickDelete 2 true;
          HistoryPage.Resolve (S (HistoryPage.next loaded_table))
            (DataArray [])]).1
    = without 2 (without 1 two_rows).
Proof.
  assert (Hs : showing two_rows loaded_table) by (repeat split; done).
  split; [exact Hs|].
  refine (proj1 (history_deletes_in_turn_remove_both two_rows loaded_table 1 2
                   (DataArray []) (DataArray []) Hs _ _ _)).
  - repeat constructor.
  - repeat constructor.
  - lia.
Defined.

Lemma history_overlapping_deletes_witness :
  showing two_rows loaded_table
  ∧ 1 ∈ reference_id <$>
      references
        (HistoryPage.run loaded_table
           [ClickDelete 1 true; ClickDelete 2 true;
            HistoryPage.Resolve (HistoryPage.next loaded_table) (DataArray []);
            HistoryPage.Resolve (S (HistoryPage.next loaded_table))
              (DataArray [])]).1.
Proof.
  assert (Hs : showing two_rows loaded_table) by (repeat split; done).
  split; [exact Hs|].
  refine (proj1 (proj2 (proj2
    (history_overlapping_deletes_restore_a_row two_rows loaded_table 1 2
       (DataArray []) (DataArray []) Hs _ _ _)))).
  - repeat constructor.
  - repeat constructor.
  - lia.
Defined.

Lemma history_failed_delete_witness :
  showing two_rows loaded_table
  ∧ 1 ∈ reference_id <$> two_rows
  ∧ HistoryPage.step loaded_table (ClickDelete 1 false)
    = (loaded_table, [Confirm msg_confirm false]).
Proof.
  assert (Hs : showing two_rows loaded_table) by (repeat split; done).
  assert (Hi : 1 ∈ reference_id <$> two_rows) by repeat constructor.
  split; [exact Hs|]. split; [exact Hi|].
  exact (proj1 (history_failed_delete_keeps_the_table two_rows loaded_table 1
                  Hs Hi)).
Defined.

Lemma history_retry_witness :
  HistoryPage.render failed_load = ErrorPage msg_history_failed
  ∧ references
      (HistoryPage.run failed_load
         [ClickTryAgain;
          HistoryPage.Resolve (HistoryPage.next failed_load)
            (DataArray two_rows)]).1
    = rows_of (DataArray two_rows).
Proof.
  split; [reflexivity|].
  exact (proj1 (proj2 (proj2
    (history_load_and_retry failed_load msg_history_failed
       (DataArray two_rows) eq_refl)))).
Defined.

End HistoryPageProps.

(** *** CheckReferencePage *)

Section CheckReferencePageProps.

Import CheckReferencePage.

Lemma check_run_cons w e es :
  CheckReferencePage.run w (e :: es) =
    ((CheckReferencePage.run (CheckReferencePage.step w e).1 es).1,
     (CheckReferencePage.step w e).2
       ++ (CheckReferencePage.run (CheckReferencePage.step w e).1 es).2).
Proof.
  simpl. destruct (CheckReferencePage.step w e) as [w1 l1]; simpl.
  by destruct (CheckReferencePage.run w1 es).
Qed.

Lemma check_stage_step w n e :
  Stage w n →
  Stage (CheckReferencePage.step w e).1
        (n + navigations (CheckReferencePage.step w e).2).
Proof.
  intros HS. destruct w as [u l er ts rs nx].
  destruct HS as [Hl Hr Ht Hn | r Hl Hr Ht Hn
                 | t rid Hl Hr Ht Hn | Hl Hr Ht Hn];
    simpl in *; subst; destruct e as [s | i | | t' | r' d | r' detail];
    simpl; try rewrite lookup_empty; simpl;
    try (destruct (examples !! i); simpl).
  all: try (by apply FormEnabled).
  all: try (by apply Moved).
  all: try (by eapply CheckInFlight; simpl; eauto).
  all: try (by eapply MoveParked; simpl; eauto).
  - destruct (decide (r' = r)) as [->|Hne].
    + rewrite lookup_singleton_eq. destruct d as [|rid]; simpl.
      * apply FormEnabled; simpl; first [done | apply delete_singleton_eq].
      * eapply MoveParked; simpl; first [done | apply delete_singleton_eq | apply insert_empty].
    + rewrite lookup_singleton_ne by done. simpl.
      by eapply CheckInFlight; simpl; eauto.
  - destruct (decide (r' = r)) as [->|Hne].
    + rewrite lookup_singleton_eq. simpl.
      apply FormEnabled; simpl; first [done | apply delete_singleton_eq].
    + rewrite lookup_singleton_ne by done. simpl.
      by eapply CheckInFlight; simpl; eauto.
  - destruct (decide (t' = t)) as [->|Hne].
    + rewrite lookup_singleton_eq. simpl.
      apply Moved; simpl; first [done | apply delete_singleton_eq].
    + rewrite lookup_singleton_ne by done. simpl.
      by eapply MoveParked; simpl; eauto.
Qed.

Lemma navigations_app l1 l2 :
  navigations (l1 ++ l2) = navigations l1 + navigations l2.
Proof. unfold navigations. by rewrite filter_app, length_app. Qed.

Lemma check_stage_run es : ∀ w n,
  Stage w n →
  Stage (CheckReferencePage.run w es).1
        (n + navigations (CheckReferencePage.run w es).2).
Proof.
  induction es as [|e es IH]; intros w n HS.
  - simpl. by rewrite Nat.add_0_r.
  - rewrite check_run_cons. cbn [fst snd].
    rewrite navigations_app, Nat.add_assoc.
    apply IH. by apply check_stage_step.
Qed.

(** X15: whatever is typed, clicked, answered or timed out on a page
    instance, it moves to a report at most once, it has at most one check
    or one parked move at a time, and while either is parked, or once the
    move is made, the form is disabled. *)
Theorem check_page_moves_at_most_once es :
  let r := CheckReferencePage.run CheckReferencePage.mount es in
  length (filter (λ a, is_navigate a = true) r.2) ≤ 1
  ∧ size (requests r.1) + size (timers r.1) ≤ 1
  ∧ (loading r.1 = false →
     requests r.1 = ∅ ∧ timers r.1 = ∅
     ∧ filter (λ a, is_navigate a = true) r.2 = []).
Proof.
  intros r.
  assert (HS : Stage r.1 (0 + navigations r.2)).
  { apply check_stage_run. by apply FormEnabled. }
  simpl in HS. fold (navigations r.2). clearbody r.
  destruct HS as [Hl Hr Ht Hn | q Hl Hr Ht Hn
                 | t rid Hl Hr Ht Hn | Hl Hr Ht Hn];
    rewrite Hr, Ht, Hn, Hl, ?map_size_empty, ?map_size_singleton;
    (split; [lia|]); (split; [simpl; lia|]); try done.
  intros _. repeat split. unfold navigations in Hn.
  by apply nil_length_inv.
Qed.

(** X16: a submission from the enabled form sends one check, of the URL in
    the input.  If the check is rejected, or answered without data, the
    form is enabled again with the server's detail, or the stock message
    when there is none or it is empty, and no move is parked or made.  If
    it is answered, nothing shows but the spinner until a timer of one
    second fires, which moves to the report of the returned id, or to
    [/report/undefined] when the answer had none. *)
Theorem check_submission_outcomes w :
  loading w = false →
  let r := next w in
  let sent := (CheckReferencePage.step w Submit).1 in
  filter (λ a, is_check_call a = true) (CheckReferencePage.step w Submit).2
    = [CallCheckReference (url w) r]
  ∧ loading sent = true ∧ error sent = EmptyString
  ∧ (∀ detail,
       let f := CheckReferencePage.step sent (Reject r detail) in
       loading f.1 = false ∧ timers f.1 = timers w
       ∧ navigations f.2 = 0
       ∧ error f.1 = match detail with
                     | Some d => if bool_decide (d = EmptyString)
                                 then msg_check_failed else d
                     | None => msg_check_failed
                     end
       ∧ CheckReferencePage.step sent (Resolve r NoData)
         = CheckReferencePage.step sent (Reject r None))
  ∧ (∀ referenceId,
       let s := CheckReferencePage.step sent (Resolve r (Body referenceId)) in
       s.2 = [SetTimeout (S r) 1000]
       ∧ loading s.1 = true ∧ error s.1 = EmptyString
       ∧ (CheckReferencePage.step s.1 (Fire (S r))).2
         = [NavigateTo ("/report/" +:+ default "undefined" referenceId)]).
Proof.
  intros Hl. destruct w as [u l er ts rs nx]. simpl in *. subst l. simpl.
  repeat split; simpl; rewrite ?lookup_insert_eq; simpl;
    rewrite ?lookup_insert_eq; done.
Qed.

Lemma check_submission_witness :
  (CheckReferencePage.step
     (CheckReferencePage.step
        (CheckReferencePage.step CheckReferencePage.mount Submit).1
        (Resolve 0 (Body (Some "42"%string)))).1 (Fire 1)).2
  = [NavigateTo "/report/42"%string].
Proof.
  exact (proj2 (proj2 (proj2
    (proj2 (proj2 (proj2 (proj2
       (check_submission_outcomes CheckReferencePage.mount eq_refl))))
     (Some "42"%string))))).
Defined.

End CheckReferencePageProps.

(** *** RatingWidget *)

Section RatingWidgetProps.

Import RatingWidget.

Lemma rating_run_cons w e es :
  RatingWidget.run w (e :: es) =
    ((RatingWidget.run (RatingWidget.step w e).1 es).1,
     (RatingWidget.step w e).2
       ++ (RatingWidget.run (RatingWidget.step w e).1 es).2).
Proof.
  simpl. destruct (RatingWidget.step w e) as [w1 l1]; simpl.
  by destruct (RatingWidget.run w1 es).
Qed.

Lemma stars_lookup i star : stars !! i = Some star → 1 ≤ star ≤ 5.
Proof.
  unfold stars. do 5 (destruct i as [|i]; [intros [= <-]; lia|]).
  discriminate.
Qed.

Lemma rating_step w n e :
  sound w n →
  sound (RatingWidget.step w e).1 (n + onRate_calls (RatingWidget.step w e).2)
  ∧ Forall rates_a_star (RatingWidget.step w e).2.
Proof.
  intros (Hr & Hq & Hs). destruct w as [rt hv cm sb rs nx]. simpl in *.
  unfold sound.
  destruct e as [i | i | | s | | r | r]; simpl; unfold on_form; simpl.
  - destruct sb; simpl.
    { rewrite Nat.add_0_r. by repeat split. }
    destruct (stars !! i) as [star|] eqn:E; simpl; rewrite Nat.add_0_r.
    + apply stars_lookup in E. repeat split; auto; try lia.
      repeat constructor.
    + by repeat split.
  - destruct sb; simpl.
    { rewrite Nat.add_0_r. by repeat split. }
    destruct (stars !! i) as [star|] eqn:E; simpl; rewrite Nat.add_0_r.
    + repeat split; auto. repeat constructor.
    + by repeat split.
  - destruct sb; simpl; rewrite Nat.add_0_r; repeat split; auto.
    repeat constructor.
  - destruct sb; simpl; rewrite Nat.add_0_r; repeat split; auto.
    repeat constructor.
  - destruct sb; simpl.
    { rewrite Nat.add_0_r. by repeat split. }
    unfold handleSubmit. simpl. case_bool_decide as Hz; simpl.
    + rewrite Nat.add_0_r. repeat split; auto. repeat constructor.
    + assert (onRate_calls [PreventDefault; CallOnRate rt cm nx] = 1) as ->
        by reflexivity.
      repeat split; simpl; auto; try lia.
      apply Forall_cons; split; [done|].
      apply Forall_cons; split; [simpl; lia|]. apply Forall_nil_2.
  - destruct (rs !! r) as [[]|] eqn:E; simpl; rewrite Nat.add_0_r.
    + repeat split; auto.
      * intros q [k Hk]. apply lookup_delete_Some in Hk as [_ Hk]. eauto.
      * intros _. eauto.
      * repeat constructor.
    + by repeat split.
  - destruct (rs !! r) as [[]|] eqn:E; simpl; rewrite Nat.add_0_r.
    + repeat split; auto.
      intros q [k Hk]. apply lookup_delete_Some in Hk as [_ Hk]. eauto.
    + by repeat split.
Qed.

Lemma onRate_calls_app l1 l2 :
  onRate_calls (l1 ++ l2) = onRate_calls l1 + onRate_calls l2.
Proof. unfold onRate_calls. by rewrite filter_app, length_app. Qed.

Lemma rating_run es : ∀ w n,
  sound w n →
  sound (RatingWidget.run w es).1 (n + onRate_calls (RatingWidget.run w es).2)
  ∧ Forall rates_a_star (RatingWidget.run w es).2.
Proof.
  induction es as [|e es IH]; intros w n HS.
  - simpl. rewrite Nat.add_0_r. by split.
  - rewrite rating_run_cons. cbn [fst snd].
    rewrite onRate_calls_app, Nat.add_assoc.
    destruct (rating_step w n e HS) as [H1 H2].
    destruct (IH _ _ H1) as [H3 H4].
    split; [done|]. by apply Forall_app.
Qed.

(** X17: whatever is clicked, hovered, typed, submitted or answered, every
    rating the widget hands to onRate is between 1 and 5, never the 0 of
    a form nobody touched, and the note of thanks only replaces the form
    after the widget has called onRate. *)
Theorem rating_widget_rates_only_stars es :
  let r := RatingWidget.run RatingWidget.mount es in
  Forall (λ a, ∀ rating comment q,
               a = CallOnRate rating comment q → 1 ≤ rating ≤ 5) r.2
  ∧ rating r.1 ≤ 5
  ∧ (render r.1 = ThankYou →
     0 < length (filter (λ a, is_onRate a = true) r.2)).
Proof.
  intros r.
  destruct (rating_run es RatingWidget.mount 0) as [(Hr & _ & Hs) HF].
  { repeat split; simpl; try lia; try discriminate.
    intros q [k Hk]. by rewrite lookup_empty in Hk. }
  fold r in Hr, Hs, HF. simpl in Hs. repeat split.
  - eapply Forall_impl; [exact HF|]. intros a Ha rating comment q ->. exact Ha.
  - done.
  - unfold render. destruct (submitted r.1); [auto|discriminate].
Qed.

End RatingWidgetProps.

(** *** The route table *)

(** X18: from every location the route table comes to rest on a page after
    at most two redirections.  Without a session that page is the landing
    page, whatever was asked for; with one it is never the landing page:
    a check, a report, the history and the profile show themselves, and
    the root and every unknown location show the check page. *)
Theorem routes_settle_by_session isAuthenticated r :
  ∃ p, App.settle App.element 2 isAuthenticated r = Some p
       ∧ (isAuthenticated = false → p = App.LandingPage)
       ∧ (isAuthenticated = true →
          p ≠ App.LandingPage
          ∧ p = match r with
                | App.Root | App.CatchAll => App.CheckReferencePage
                | _ => default App.LandingPage (App.page_of r)
                end).
Proof.
  destruct isAuthenticated, r; simpl; eexists; (split; [reflexivity|]);
    split; intros; try discriminate; try done.
Qed.

(** X19: the earlier route table also keeps every page but the landing page
    behind the session and comes to rest within two redirections, but it
    shows the landing page at the root and at every unknown location to a
    signed-in user too. *)
Theorem routes_v1_landing_is_public isAuthenticated r :
  ∃ p, App.settle App.element_v1 2 isAuthenticated r = Some p
       ∧ (isAuthenticated = false → p = App.LandingPage)
       ∧ (p ≠ App.LandingPage →
          isAuthenticated = true ∧ App.page_of r = Some p)
       ∧ (r = App.Root ∨ r = App.CatchAll → p = App.LandingPage).
Proof.
  destruct isAuthenticated, r; simpl; eexists; (split; [reflexivity|]);
    repeat split; intros; try discriminate; try done;
    match goal with H : _ ∨ _ |- _ => destruct H; discriminate end.
Qed.

(** *** The API client *)

(** X20: after the response interceptor has handled a 401, the token and the
    user are gone from the local storage and the location is the landing
    page, so every later request leaves the request interceptor as it
    entered it, with no Authorization header added; handling the same
    response again changes nothing more.  Any other failure leaves the
    browser as it was.  The error is passed on in both cases. *)
Theorem unauthorized_response_ends_the_session b error config :
  let b' := (api.response_error_interceptor b error).1 in
  (api.response_error_interceptor b error).2 = error
  ∧ (api.response_status error = Some 401 →
     api.localStorage b' !! "token"%string = None
     ∧ api.localStorage b' !! "user"%string = None
     ∧ api.location_href b' = "/"%string
     ∧ api.request_interceptor b' config = config
     ∧ (api.response_error_interceptor b' error).1 = b')
  ∧ (api.response_status error ≠ Some 401 → b' = b).
Proof.
  unfold api.response_error_interceptor.
  destruct (bool_decide (api.response_status error = Some 401)) eqn:E; simpl.
  - apply bool_decide_eq_true in E. split; [done|]. split; [|done].
    intros _. repeat split.
    + rewrite lookup_delete_ne by done. apply lookup_delete_eq.
    + apply lookup_delete_eq.
    + unfold api.request_interceptor, api.stored_token. simpl.
      rewrite lookup_delete_ne by done. by rewrite lookup_delete_eq.
    + f_equal. apply map_eq. intros k.
      destruct (decide (k = "user"%string)) as [->|Hu];
        [by rewrite !lookup_delete_eq|].
      rewrite (lookup_delete_ne _ "user"%string k) by done.
      destruct (decide (k = "token"%string)) as [->|Ht].
      * rewrite lookup_delete_eq.
        rewrite (lookup_delete_ne _ "user"%string) by done.
        by rewrite lookup_delete_eq.
      * rewrite (lookup_delete_ne _ "token"%string k) by done.
        by rewrite (lookup_delete_ne _ "user"%string k) by done.
  - apply bool_decide_eq_false in E. split; [done|]. split; [done|done].
Qed.

(** X21: with a non-empty token in the local storage, every request leaves
    the interceptor with [Authorization: Bearer <token>], replacing any
    Authorization header it came with, and with its method, its URL and
    its other headers untouched; with no token, or an empty one, the
    request leaves as it came. *)
Theorem request_interceptor_attaches_the_token b config :
  (∀ token, api.localStorage b !! "token"%string = Some token →
            token ≠ EmptyString →
     let c := api.request_interceptor b config in
     api.headers c !! "Authorization"%string = Some ("Bearer " +:+ token)%string
     ∧ (∀ h, h ≠ "Authorization"%string →
             api.headers c !! h = api.headers config !! h)
     ∧ api.method c = api.method config ∧ api.url c = api.url config)
  ∧ (api.localStorage b !! "token"%string = None
     ∨ api.localStorage b !! "token"%string = Some EmptyString →
     api.request_interceptor b config = config).
Proof.
  unfold api.request_interceptor, api.stored_token. split.
  - intros token Ht Hne. rewrite Ht, (bool_decide_eq_false_2 _ Hne). simpl.
    repeat split.
    + apply lookup_insert_eq.
    + intros h Hh. by rewrite lookup_insert_ne.
  - intros [-> | ->]; done.
Qed.
